(** * A region-based bump-pointer arena (src/src/main.c)

    Shallow embedding of the arena of [main.c] and the properties its
    specification states about it.

    - [size_t] and [uintptr_t] are 64-bit unsigned integers (LP64): they are
      modelled as [Z], every C operation reduced modulo [2^64] by [wrap].
    - Pointers are addresses ([Z]); [NULL] is [0].
    - The region headers that the program reaches through [region_t *] live
      in a store [gmap Z region_t] keyed by the address of the header, so
      that the aliasing between [a->start], [a->current] and the [next]
      links is the one of the program.
    - [mmap] is the only external collaborator: the address it returns is an
      argument of the operations that call it. *)

From Stdlib Require Import ZArith Lia Bool List.
From stdpp Require Import base option list gmap fin_maps.

Local Open Scope Z_scope.

(** ** Machine arithmetic *)

Definition WORD : Z := 2 ^ 64.

(** The value of an unsigned 64-bit C expression whose mathematical value
    is [z]. *)
Definition wrap (z : Z) : Z := z mod WORD.

Definition NULL : Z := 0.

(** [MAP_FAILED] is [(void * ) -1]. *)
Definition MAP_FAILED : Z := wrap (-1).

(** ** Data model (main.c, lines 13-35) *)

Record region_t : Type := mk_region {
  next : Z;    (* region_t *next *)
  cap : Z;     (* size_t cap *)
  free : Z;    (* uintptr_t free *)
  begin : Z    (* uintptr_t begin *)
}.

Record arena_t : Type := mk_arena {
  start : Z;          (* region_t *start *)
  current : Z;        (* region_t *current *)
  region_size : Z;    (* size_t region_size *)
  region_count : Z    (* size_t region_count *)
}.

(** [sizeof(region_t)]: a pointer, a [size_t] and two [uintptr_t]. *)
Definition sizeof_region_t : Z := 32.

(** ** [align_up] (line 39)

    [#define align_up(addr, align) ((addr) + ((align - 1)) & ~((align - 1)))].
    In C [+] binds tighter than [&]: the macro is
    [(addr + (align - 1)) & ~(align - 1)], all in 64-bit unsigned
    arithmetic. *)
Definition align_up (addr align : Z) : Z :=
  Z.land (wrap (addr + wrap (align - 1))) (wrap (Z.lnot (wrap (align - 1)))).

(** ** Region operations (lines 41-76) *)

Definition region_init (cap0 buf : Z) : region_t :=
  {| next := NULL; cap := cap0; free := buf; begin := buf |}.

(** [region_alloc] returns the pointer and the region as the call leaves
    it. The test [start + size > region->begin + region->cap] compares two
    64-bit sums. *)
Definition region_alloc (region : region_t) (size align : Z) : Z * region_t :=
  let start := align_up (free region) align in
  if wrap (start + size) >? wrap (begin region + cap region) then (NULL, region)
  else
    let offset := wrap (start - free region) in
    (start,
     {| next := next region;
        cap := cap region;
        free := wrap (wrap (free region + offset) + size);
        begin := begin region |}).

Definition region_has_space (region : region_t) (size align : Z) : bool :=
  let start := align_up (free region) align in
  if wrap (start + size) >? wrap (begin region + cap region) then false
  else true.

(** ** Powers of two *)

Definition is_pow2b (n : Z) : bool :=
  (0 <? n) && (n <? WORD) && (2 ^ Z.log2 n =? n).

Definition is_pow2 (n : Z) : Prop := is_pow2b n = true.

(** The mathematical rounding that [align_up] is meant to compute. *)
Definition round_up (addr align : Z) : Z := (addr + align - 1) / align * align.

(** ** The store of region headers and the outcome of a call *)

(** A call either returns, or the process stops: [assert] fails
    ([AssertionFailed]), a [region_t *] that points to no live region is
    dereferenced ([InvalidPointer]), or the model of a loop was given too
    little fuel ([OutOfFuel]). *)
Inductive fault : Type :=
| AssertionFailed
| InvalidPointer
| OutOfFuel.

Inductive result (A : Type) : Type :=
| Ret (a : A)
| Fault (f : fault).

Arguments Ret {A} a.
Arguments Fault {A} f.

#[global] Instance result_ret : MRet result := fun A a => Ret a.

#[global] Instance result_bind : MBind result := fun A B f m =>
  match m with
  | Ret a => f a
  | Fault e => Fault e
  end.

(** [*p] for [p : region_t *]. *)
Definition load (h : gmap Z region_t) (p : Z) : result region_t :=
  match h !! p with
  | Some r => Ret r
  | None => Fault InvalidPointer
  end.

Definition set_next (r : region_t) (p : Z) : region_t :=
  {| next := p; cap := cap r; free := free r; begin := begin r |}.

(** [region_release] (lines 78-81): [munmap(region, size)] ends the life of
    the header at [region]. *)
Definition region_release (h : gmap Z region_t) (region size : Z) : gmap Z region_t :=
  delete region h.

(** ** Region acquisition (lines 83-97)

    [page] is the value that [mmap] returned. *)
Definition alloc_new_region (page : Z) (h : gmap Z region_t) (size : Z)
  : result (gmap Z region_t * Z) :=
  if page =? MAP_FAILED then Fault AssertionFailed
  else
    let region := page in
    let start := wrap (page + sizeof_region_t) in
    let offset := wrap (start - page) in
    Ret (<[region := region_init (wrap (size - offset)) start]> h, region).

(** ** Arena operations (lines 99-148) *)

Definition arena_init (page : Z) (h : gmap Z region_t) (region_size0 : Z)
  : result (gmap Z region_t * arena_t) :=
  '(h1, region) ← alloc_new_region page h region_size0;
  Ret (h1, {| start := region; current := region;
              region_size := region_size0; region_count := 1 |}).

(** [page] is what [mmap] returns if this call reaches
    [alloc_new_region]. *)
Definition arena_alloc (page : Z) (h : gmap Z region_t) (a : arena_t) (size align : Z)
  : result (Z * gmap Z region_t * arena_t) :=
  if current a =? NULL then Ret (NULL, h, a)
  else if wrap (region_size a - sizeof_region_t) <? size then Ret (NULL, h, a)
  else
    cur ← load h (current a);
    if region_has_space cur size align then
      let '(p, cur') := region_alloc cur size align in
      Ret (p, <[current a := cur']> h, a)
    else
      '(h1, next_region) ← alloc_new_region page h (region_size a);
      cur1 ← load h1 (current a);
      let h2 := <[current a := set_next cur1 next_region]> h1 in
      let a' := {| start := start a; current := next_region;
                   region_size := region_size a;
                   region_count := wrap (region_count a + 1) |} in
      r ← load h2 (current a');
      let '(p, r') := region_alloc r size align in
      Ret (p, <[current a' := r']> h2, a').

(** The loop of [arena_release]; [fuel] bounds the number of iterations. *)
Fixpoint release_chain (fuel : nat) (h : gmap Z region_t) (ptr size : Z)
  : result (gmap Z region_t) :=
  if ptr =? NULL then Ret h
  else
    match fuel with
    | O => Fault OutOfFuel
    | S fuel' =>
        r ← load h ptr;
        let next0 := next r in
        release_chain fuel' (region_release h ptr size) next0 size
    end.

Definition arena_release (fuel : nat) (h : gmap Z region_t) (a : arena_t)
  : result (gmap Z region_t * arena_t) :=
  h' ← release_chain fuel h (start a) (region_size a);
  Ret (h', {| start := NULL; current := NULL;
              region_size := region_size a; region_count := 0 |}).

(** ** The operating system

    What [mmap(NULL, len, PROT_READ | PROT_WRITE, MAP_ANONYMOUS | MAP_PRIVATE, -1, 0)]
    promises about the address it returns: the mapping is new, it is not
    at address 0, it starts on a page boundary (line 89 relies on it), and
    it lies in the lower half of the address space, where the LP64 systems
    this program runs on place user mappings. *)
Definition PAGE_SIZE : Z := 4096.
Definition USER_TOP : Z := 2 ^ 63.

Definition mmap_ok (h : gmap Z region_t) (len page : Z) : Prop :=
  h !! page = None /\ 0 < page /\ page mod PAGE_SIZE = 0 /\ page + len <= USER_TOP.

(** ** Reachable arenas

    The open arenas: those that [arena_init] creates, with a region size
    that holds the header [alloc_new_region] stores in the mapping, and
    those that [arena_alloc] leaves, for requests whose alignment is a power
    of two. *)
Inductive reachable : gmap Z region_t -> arena_t -> Prop :=
| reachable_init h0 rs page h a :
    sizeof_region_t <= rs ->
    mmap_ok h0 rs page ->
    arena_init page h0 rs = Ret (h, a) ->
    reachable h a
| reachable_alloc h a page size align p h' a' :
    reachable h a ->
    is_pow2 align ->
    0 <= size < WORD ->
    mmap_ok h (region_size a) page ->
    arena_alloc page h a size align = Ret (p, h', a') ->
    reachable h' a'.

(** ** Region and arena invariants *)

(** A region over real memory: its span is a range of user addresses and
    the cursor is inside it. *)
Definition region_wf (r : region_t) : Prop :=
  0 < begin r /\ begin r <= free r /\ free r <= begin r + cap r /\
  begin r + cap r <= USER_TOP.

(** The region that [alloc_new_region] laid out in the mapping at [page]. *)
Definition region_at (rs page : Z) (r : region_t) : Prop :=
  begin r = page + sizeof_region_t /\ cap r = rs - sizeof_region_t /\
  begin r <= free r <= page + rs.

Definition page_ok (rs page : Z) : Prop :=
  0 < page /\ page mod PAGE_SIZE = 0 /\ page + rs <= USER_TOP.

(** [chain h p l]: following [next] from [p] visits the live headers [l]
    and then reaches [NULL]. *)
Fixpoint chain (h : gmap Z region_t) (p : Z) (l : list Z) : Prop :=
  match l with
  | [] => p = NULL
  | q :: l' =>
      p = q /\ q <> NULL /\ exists r, h !! q = Some r /\ chain h (next r) l'
  end.

Definition arena_inv (h : gmap Z region_t) (a : arena_t) (l : list Z) : Prop :=
  sizeof_region_t <= region_size a /\
  chain h (start a) l /\
  last l = Some (current a) /\
  NoDup l /\
  region_count a = Z.of_nat (length l) /\
  Forall (fun p => page_ok (region_size a) p /\
                   exists r, h !! p = Some r /\ region_at (region_size a) p r) l.

(** The regions an arena owns: those on the chain from [start]. *)
Definition owns (h : gmap Z region_t) (a : arena_t) (q : Z) : Prop :=
  exists l, chain h (start a) l /\ q ∈ l.

(** A non-null address of the user half of the address space. *)
Definition user_address (p : Z) : Prop := 0 < p <= USER_TOP.

(** The block [[p, p+size)] lies in the span of [r]. *)
Definition block_in (p size : Z) (r : region_t) : Prop :=
  begin r <= p /\ p + size <= begin r + cap r.

(** Blocks laid out one after the other from [lo] upwards. *)
Fixpoint ascending (lo : Z) (blocks : list (Z * Z)) : Prop :=
  match blocks with
  | [] => True
  | (p, s) :: blocks' => lo <= p /\ 0 <= s /\ ascending (p + s) blocks'
  end.

(** The predicates on concrete states are decidable. *)
#[global] Instance region_t_eq_dec : EqDecision region_t.
Proof. solve_decision. Defined.

#[global] Instance mmap_ok_dec h len page : Decision (mmap_ok h len page).
Proof. unfold mmap_ok. apply _. Defined.

#[global] Instance region_wf_dec r : Decision (region_wf r).
Proof. unfold region_wf. apply _. Defined.

#[global] Instance region_at_dec rs page r : Decision (region_at rs page r).
Proof. unfold region_at. apply _. Defined.

#[global] Instance page_ok_dec rs page : Decision (page_ok rs page).
Proof. unfold page_ok. apply _. Defined.

#[global] Instance user_address_dec p : Decision (user_address p).
Proof. unfold user_address. apply _. Defined.

#[global] Instance block_in_dec p size r : Decision (block_in p size r).
Proof. unfold block_in. apply _. Defined.

(** ** Blocks and sequences of requests *)

(** Do the blocks [[a, a+s)] and [[b, b+t)] share an address? *)
Definition overlaps (a s b t : Z) : bool :=
  (0 <? s) && (0 <? t) && (a <? b + t) && (b <? a + s).

(** Successive [region_alloc] calls on one region, for the requests
    [(size, align)] in order; the blocks [(address, size)] of the calls
    that returned a non-null pointer, in call order, and the region at the
    end. *)
Fixpoint region_allocs (r : region_t) (reqs : list (Z * Z)) : list (Z * Z) * region_t :=
  match reqs with
  | [] => ([], r)
  | (size, align) :: reqs' =>
      let '(p, r') := region_alloc r size align in
      let '(blocks, r'') := region_allocs r' reqs' in
      (if p =? NULL then blocks else (p, size) :: blocks, r'')
  end.

(** Successive [arena_alloc] calls for the same request; [pages] are the
    answers [mmap] has ready, one per call. The pointers returned, in call
    order, and the final state. *)
Fixpoint arena_allocs (pages : list Z) (h : gmap Z region_t) (a : arena_t) (size align : Z)
  : result (list Z * gmap Z region_t * arena_t) :=
  match pages with
  | [] => Ret ([], h, a)
  | page :: pages' =>
      '(p, h1, a1) ← arena_alloc page h a size align;
      '(ps, h2, a2) ← arena_allocs pages' h1 a1 size align;
      Ret (p :: ps, h2, a2)
  end.

(** ** Concrete states, from the test driver (lines 164-219) *)

(** The region of [test_region] (lines 167-171): ten bytes of stack at
    [0x7ffc00001000]. *)
Definition test_buf : Z := 140720308490240.

Definition test_region : region_t := region_init 10 test_buf.

(** The arena of [test_arena] (line 194): regions of [sizeof(region_t) + 8]
    bytes, the first one mapped at address 4096. *)
Definition test_heap : gmap Z region_t := {[ 4096 := region_init 8 4128 ]}.

Definition test_arena : arena_t :=
  {| start := 4096; current := 4096; region_size := 40; region_count := 1 |}.

(** The same arena after [arena_alloc(&arena, 5, 8)] (line 198). *)
Definition test_region_used : region_t :=
  {| next := NULL; cap := 8; free := 4133; begin := 4128 |}.

Definition test_heap_used : gmap Z region_t := {[ 4096 := test_region_used ]}.

(** The arena after [arena_release(&arena)] (line 215). *)
Definition test_arena_released : arena_t :=
  {| start := NULL; current := NULL; region_size := 40; region_count := 0 |}.

(** ** A whole run of an arena *)

(** [mmap] also never answers with addresses of a live mapping: the new
    mapping [[page, page+len)] is apart from the mapping of every region of
    the store, which runs from its header to the end of its span. *)
Definition mmap_fresh (h : gmap Z region_t) (len page : Z) : Prop :=
  mmap_ok h len page /\
  map_Forall (fun q r => page + len <= q \/ begin r + cap r <= page) h.

#[global] Instance mmap_fresh_dec h len page : Decision (mmap_fresh h len page).
Proof. unfold mmap_fresh. apply _. Defined.

(** Successive [arena_alloc] calls, one per request [(page, size, align)],
    [page] being the answer [mmap] has ready for that call. The blocks
    [(address, size)] of the calls that returned a non-null pointer, in
    call order, and the final state. *)
Fixpoint arena_run (reqs : list (Z * Z * Z)) (h : gmap Z region_t) (a : arena_t)
  : result (list (Z * Z) * gmap Z region_t * arena_t) :=
  match reqs with
  | [] => Ret ([], h, a)
  | (page, size, align) :: reqs' =>
      '(p, h1, a1) ← arena_alloc page h a size align;
      '(blocks, h2, a2) ← arena_run reqs' h1 a1;
      Ret (if p =? NULL then blocks else (p, size) :: blocks, h2, a2)
  end.

(** The requests of a run are well formed and the operating system keeps
    its promises at every call. *)
Fixpoint run_ok (reqs : list (Z * Z * Z)) (h : gmap Z region_t) (a : arena_t) : Prop :=
  match reqs with
  | [] => True
  | (page, size, align) :: reqs' =>
      is_pow2 align /\ 0 <= size < WORD /\
      mmap_fresh h (region_size a) page /\
      match arena_alloc page h a size align with
      | Ret (_, h1, a1) => run_ok reqs' h1 a1
      | Fault _ => True
      end
  end.

(** No two of the blocks share an address. *)
Definition pairwise_disjoint (blocks : list (Z * Z)) : Prop :=
  forall i j bi bj, (i < j)%nat ->
    blocks !! i = Some bi -> blocks !! j = Some bj ->
    overlaps bi.1 bi.2 bj.1 bj.2 = false.

(** The mappings of the regions [l], each [rs] bytes long, are apart. *)
Definition pages_apart (rs : Z) (l : list Z) : Prop :=
  forall q1 q2, q1 ∈ l -> q2 ∈ l -> q1 <> q2 -> q1 + rs <= q2 \/ q2 + rs <= q1.

(** [x] is an address that a region of [l] has handed out or skipped:
    it lies below the cursor. *)
Definition used (h : gmap Z region_t) (l : list Z) (x : Z) : Prop :=
  exists q r, q ∈ l /\ h !! q = Some r /\ begin r <= x < free r.

(** ** The test driver (lines 164-225)

    [assert] stops the process when its condition is false; the
    [print_addr] and [printf] lines have no effect on the arena. *)
Definition assert (b : bool) : result unit :=
  if b then Ret tt else Fault AssertionFailed.

Module Tests.

(** [buf] is the address of the local array [char buf[10]]. *)
Definition test_region (buf : Z) : result unit :=
  let region := region_init 10 buf in
  let '(mem, region) := region_alloc region 3 4 in
  let '(next_mem, region) := region_alloc region 3 4 in
  _ ← assert (next_mem =? wrap (mem + 4));
  let '(next_mem2, region) := region_alloc region 3 4 in
  _ ← assert (next_mem2 =? 0);
  Ret tt.

(** [pages] are the answers [mmap] has ready for [arena_init] and for the
    four [arena_alloc] calls, in order. Returns the store at the end. *)
Definition test_arena (pages : Z * Z * Z * Z * Z) (fuel : nat) (h : gmap Z region_t)
  : result (gmap Z region_t) :=
  let '(page0, page1, page2, page3, page4) := pages in
  '(h, arena) ← arena_init page0 h (wrap (sizeof_region_t + 8));
  '(mem, h, arena) ← arena_alloc page1 h arena 5 8;
  _ ← assert (region_count arena =? 1);
  '(mem2, h, arena) ← arena_alloc page2 h arena 5 8;
  _ ← assert (region_count arena =? 2);
  '(big, h, arena) ← arena_alloc page3 h arena 9 16;
  _ ← assert (big =? NULL);
  _ ← assert (region_count arena =? 2);
  '(h, arena) ← arena_release fuel h arena;
  _ ← assert (region_count arena =? 0);
  '(late, h, arena) ← arena_alloc page4 h arena 2 2;
  _ ← assert (late =? NULL);
  Ret h.

(** [main] runs the two tests. *)
Definition main (buf : Z) (pages : Z * Z * Z * Z * Z) (fuel : nat) (h : gmap Z region_t)
  : result (gmap Z region_t) :=
  _ ← test_region buf;
  test_arena pages fuel h.

End Tests.

(** A decidable fact about a concrete state, by evaluation. *)
Ltac by_evaluation := apply (bool_decide_unpack _); vm_compute; exact I.

(** ** Facts on machine arithmetic *)

Lemma WORD_eq : WORD = 18446744073709551616.
Proof. reflexivity. Qed.

Lemma wrap_small z : 0 <= z < WORD -> wrap z = z.
Proof. intros H. unfold wrap. apply Z.mod_small. exact H. Qed.

Lemma wrap_range z : 0 <= wrap z < WORD.
Proof. unfold wrap. apply Z.mod_pos_bound. rewrite WORD_eq. lia. Qed.

Lemma wrap_add_l a b : wrap (wrap a + b) = wrap (a + b).
Proof. unfold wrap. apply Zplus_mod_idemp_l. Qed.

Lemma wrap_sub_add a b : wrap (a + wrap (b - a)) = wrap b.
Proof.
  unfold wrap. rewrite Zplus_mod_idemp_r. f_equal. lia.
Qed.

Lemma is_pow2_spec n :
  is_pow2 n -> exists k, 0 <= k < 64 /\ n = 2 ^ k.
Proof.
  unfold is_pow2, is_pow2b. intros H.
  apply andb_prop in H as [H H3]. apply andb_prop in H as [H1 H2].
  apply Z.ltb_lt in H1. apply Z.ltb_lt in H2. apply Z.eqb_eq in H3.
  exists (Z.log2 n). split; [split|].
  - apply Z.log2_nonneg.
  - apply Z.log2_lt_pow2; [lia|]. exact H2.
  - symmetry. exact H3.
Qed.

Lemma pow2_bounds k : 0 <= k < 64 -> 1 <= 2 ^ k <= 2 ^ 63.
Proof.
  intros H. split.
  - assert (0 < 2 ^ k) by (apply Z.pow_pos_nonneg; lia). lia.
  - apply Z.pow_le_mono_r; lia.
Qed.

Lemma land_wrap_lnot y m :
  0 <= y < WORD -> Z.land y (wrap (Z.lnot m)) = Z.land y (Z.lnot m).
Proof.
  intros Hy. unfold wrap, WORD.
  rewrite <- Z.land_ones by lia.
  rewrite (Z.land_comm (Z.lnot m)), Z.land_assoc.
  rewrite Z.land_ones by lia.
  rewrite Z.mod_small by exact Hy. reflexivity.
Qed.

(** Without overflow in [addr + (align - 1)], the macro rounds up. *)
Lemma align_up_round_up addr k :
  0 <= k < 64 -> 0 <= addr -> addr + 2 ^ k - 1 < WORD ->
  align_up addr (2 ^ k) = round_up addr (2 ^ k).
Proof.
  intros Hk Ha Hno. pose proof (pow2_bounds k Hk) as Hp.
  assert (H63 : 2 ^ 63 < WORD) by (rewrite WORD_eq; reflexivity).
  unfold align_up, round_up.
  rewrite (wrap_small (2 ^ k - 1)) by lia.
  rewrite (wrap_small (addr + (2 ^ k - 1))) by lia.
  rewrite land_wrap_lnot by lia.
  rewrite <- Z.ldiff_land.
  replace (2 ^ k - 1) with (Z.ones k) by (rewrite Z.ones_equiv; lia).
  rewrite Z.ldiff_ones_r by lia.
  rewrite Z.shiftr_div_pow2, Z.shiftl_mul_pow2 by lia.
  rewrite Z.ones_equiv.
  replace (addr + Z.pred (2 ^ k)) with (addr + 2 ^ k - 1) by lia.
  reflexivity.
Qed.

Lemma round_up_bounds addr n :
  0 < n -> addr <= round_up addr n < addr + n.
Proof.
  intros Hn. unfold round_up.
  pose proof (Z.div_mod (addr + n - 1) n ltac:(lia)) as Hd.
  pose proof (Z.mod_pos_bound (addr + n - 1) n Hn) as Hm.
  lia.
Qed.

Lemma round_up_mod addr n : 0 < n -> round_up addr n mod n = 0.
Proof. intros Hn. unfold round_up. apply Z.mod_mul. lia. Qed.

Lemma round_up_aligned addr n :
  0 < n -> addr mod n = 0 -> round_up addr n = addr.
Proof.
  intros Hn Hm. unfold round_up.
  apply Z.mod_divide in Hm; [|lia]. destruct Hm as [q ->].
  replace (q * n + n - 1) with ((n - 1) + q * n) by lia.
  rewrite Z.div_add by lia. rewrite Z.div_small by lia. lia.
Qed.

Lemma USER_TOP_eq : USER_TOP = 9223372036854775808.
Proof. reflexivity. Qed.

Lemma round_up_le_top addr k :
  0 <= k < 64 -> addr <= USER_TOP -> round_up addr (2 ^ k) <= USER_TOP.
Proof.
  intros Hk Ha. pose proof (pow2_bounds k Hk) as Hp.
  assert (Htop : USER_TOP = 2 ^ (63 - k) * 2 ^ k).
  { rewrite <- Z.pow_add_r by lia. unfold USER_TOP. f_equal. lia. }
  unfold round_up.
  assert (Hq : (addr + 2 ^ k - 1) / 2 ^ k <= 2 ^ (63 - k)).
  { apply Z.lt_succ_r. apply Z.div_lt_upper_bound; [lia|]. nia. }
  rewrite Htop. apply Z.mul_le_mono_nonneg_r; lia.
Qed.

(** On user addresses the macro is the mathematical rounding: the sum
    [addr + (align - 1)] cannot wrap. *)
Lemma align_up_user addr align :
  0 < addr <= USER_TOP -> is_pow2 align ->
  align_up addr align = round_up addr align /\
  addr <= round_up addr align <= USER_TOP /\
  round_up addr align mod align = 0.
Proof.
  intros Ha Hal. destruct (is_pow2_spec _ Hal) as (k & Hk & ->).
  pose proof (pow2_bounds k Hk) as Hp.
  rewrite USER_TOP_eq in Ha. change (2 ^ 63) with 9223372036854775808 in Hp.
  split; [|split; [split|]].
  - apply align_up_round_up; [lia|lia|rewrite WORD_eq; lia].
  - apply round_up_bounds. lia.
  - apply round_up_le_top; [lia|rewrite USER_TOP_eq; lia].
  - apply round_up_mod. lia.
Qed.

(** What [region_alloc] does on a well-formed region when the request is
    smaller than the user address space: no sum wraps. *)
Lemma region_alloc_spec r size align :
  region_wf r -> is_pow2 align -> 0 <= size < USER_TOP ->
  region_alloc r size align =
    if begin r + cap r <? round_up (free r) align + size then (NULL, r)
    else (round_up (free r) align,
          {| next := next r; cap := cap r;
             free := round_up (free r) align + size; begin := begin r |}).
Proof.
  intros (Hb & Hbf & Hfc & Htop) Hal Hsz.
  destruct (align_up_user (free r) align ltac:(lia) Hal) as (Hau & [Hlo Hhi] & _).
  rewrite USER_TOP_eq in *.
  unfold region_alloc. rewrite Hau.
  set (s := round_up (free r) align) in *.
  rewrite (wrap_small (begin r + cap r)) by (rewrite WORD_eq; lia).
  rewrite (wrap_small (s + size)) by (rewrite WORD_eq; lia).
  rewrite Z.gtb_ltb.
  destruct (begin r + cap r <? s + size); [reflexivity|].
  rewrite wrap_sub_add, wrap_add_l.
  rewrite (wrap_small (s + size)) by (rewrite WORD_eq; lia).
  reflexivity.
Qed.

Lemma region_has_space_spec r size align :
  region_wf r -> is_pow2 align -> 0 <= size < USER_TOP ->
  region_has_space r size align =
    negb (begin r + cap r <? round_up (free r) align + size).
Proof.
  intros (Hb & Hbf & Hfc & Htop) Hal Hsz.
  destruct (align_up_user (free r) align ltac:(lia) Hal) as (Hau & [Hlo Hhi] & _).
  rewrite USER_TOP_eq in *.
  unfold region_has_space. rewrite Hau.
  set (s := round_up (free r) align) in *.
  rewrite (wrap_small (begin r + cap r)) by (rewrite WORD_eq; lia).
  rewrite (wrap_small (s + size)) by (rewrite WORD_eq; lia).
  rewrite Z.gtb_ltb.
  destruct (begin r + cap r <? s + size); reflexivity.
Qed.

(** A successful [region_alloc] returns an aligned block inside the region
    and keeps the region well formed. *)
Lemma region_alloc_success r size align p r' :
  region_wf r -> is_pow2 align -> 0 <= size < USER_TOP ->
  region_alloc r size align = (p, r') -> p <> NULL ->
  p mod align = 0 /\ free r <= p /\ p + size = free r' /\
  begin r' = begin r /\ cap r' = cap r /\ next r' = next r /\ region_wf r'.
Proof.
  intros Hwf Hal Hsz Heq Hp.
  rewrite region_alloc_spec in Heq by assumption.
  destruct Hwf as (Hb & Hbf & Hfc & Htop).
  destruct (align_up_user (free r) align ltac:(lia) Hal) as (_ & [Hlo Hhi] & Hmod).
  destruct (begin r + cap r <? round_up (free r) align + size) eqn:Hcmp.
  - inversion Heq; subst. contradiction.
  - apply Z.ltb_ge in Hcmp. inversion Heq; subst; clear Heq. cbn.
    unfold region_wf; cbn. repeat split; try assumption; lia.
Qed.

(** ** Chains of regions *)

Lemma NoDup_range_length (l : list Z) n :
  0 <= n -> NoDup l -> Forall (fun x => 0 <= x < n) l -> Z.of_nat (length l) <= n.
Proof.
  intros Hn Hnd Hall.
  assert (Hsub : l ⊆+ seqZ 0 n).
  { apply NoDup_submseteq; [exact Hnd|].
    intros x Hx. rewrite Forall_forall in Hall.
    apply elem_of_seqZ. specialize (Hall x Hx). lia. }
  apply submseteq_length in Hsub. rewrite length_seqZ in Hsub. lia.
Qed.

Lemma chain_agree h h' l : forall p,
  chain h p l ->
  (forall q r, q ∈ l -> h !! q = Some r ->
     exists r', h' !! q = Some r' /\ next r' = next r) ->
  chain h' p l.
Proof.
  induction l as [|x l IH]; intros p Hc Hag; cbn in *; [exact Hc|].
  destruct Hc as (-> & Hx & r & Hr & Hc).
  destruct (Hag x r ltac:(left) Hr) as (r' & Hr' & Hn).
  split; [reflexivity|]. split; [exact Hx|].
  exists r'. split; [exact Hr'|]. rewrite Hn.
  apply IH; [exact Hc|]. intros q r0 Hq. apply Hag. right. exact Hq.
Qed.

Lemma chain_last_next h l : forall p c r,
  chain h p l -> last l = Some c -> h !! c = Some r -> next r = NULL.
Proof.
  induction l as [|x l IH]; intros p c r Hc Hl Hr; [discriminate|].
  cbn in Hc. destruct Hc as (-> & Hx & r0 & Hr0 & Hc).
  destruct l as [|y l].
  - cbn in Hl. inversion Hl; subst. rewrite Hr in Hr0. inversion Hr0; subst.
    exact Hc.
  - rewrite last_cons_cons in Hl. eapply IH; eassumption.
Qed.

Lemma chain_snoc h h' page c rc rn l : forall p,
  chain h p l -> last l = Some c -> NoDup l ->
  (forall q r, q ∈ l -> q <> c -> h !! q = Some r ->
     exists r', h' !! q = Some r' /\ next r' = next r) ->
  c <> NULL -> page <> NULL ->
  h' !! c = Some rc -> next rc = page ->
  h' !! page = Some rn -> next rn = NULL ->
  chain h' p (l ++ [page]).
Proof.
  induction l as [|x l IH]; intros p Hc Hl Hnd Hag Hcn Hpn Hrc Hnc Hrn Hnn;
    [discriminate|].
  cbn in Hc. destruct Hc as (-> & Hx & r0 & Hr0 & Hc).
  destruct l as [|y l].
  - cbn in Hl. inversion Hl; subst. cbn.
    split; [reflexivity|]. split; [exact Hcn|].
    exists rc. split; [exact Hrc|].
    split; [reflexivity|]. split; [exact Hpn|].
    exists rn. split; [exact Hrn|]. exact Hnn.
  - rewrite last_cons_cons in Hl.
    apply NoDup_cons in Hnd as [Hnotin Hnd].
    assert (Hxc : x <> c).
    { intros ->. apply Hnotin. apply last_Some_elem_of. exact Hl. }
    destruct (Hag x r0 ltac:(left) Hxc Hr0) as (r' & Hr' & Hn).
    change ((x :: y :: l) ++ [page]) with (x :: ((y :: l) ++ [page])).
    cbn [chain]. split; [reflexivity|]. split; [exact Hx|].
    exists r'. split; [exact Hr'|]. rewrite Hn.
    apply IH; try assumption.
    intros q r Hq. apply Hag. right. exact Hq.
Qed.

(** ** Regions of an arena *)

Lemma region_at_wf rs page r :
  sizeof_region_t <= rs -> page_ok rs page -> region_at rs page r -> region_wf r.
Proof.
  unfold page_ok, region_at, region_wf, sizeof_region_t.
  intros Hrs (Hp & _ & Htop) (Hb & Hc & Hf). lia.
Qed.

(** In both outcomes [region_alloc] keeps the span of the region and its
    link, and the cursor stays inside the span. *)
Lemma region_alloc_frame r size align p r' :
  region_wf r -> is_pow2 align -> 0 <= size < USER_TOP ->
  region_alloc r size align = (p, r') ->
  begin r' = begin r /\ cap r' = cap r /\ next r' = next r /\
  free r <= free r' <= begin r + cap r.
Proof.
  intros Hwf Hal Hsz Heq.
  rewrite region_alloc_spec in Heq by assumption.
  destruct Hwf as (Hb & Hbf & Hfc & Htop).
  destruct (align_up_user (free r) align ltac:(lia) Hal) as (_ & [Hlo Hhi] & _).
  destruct (begin r + cap r <? round_up (free r) align + size) eqn:Hcmp.
  - inversion Heq; subst. lia.
  - apply Z.ltb_ge in Hcmp. inversion Heq; subst; cbn. lia.
Qed.

Lemma alloc_new_region_spec page h rs :
  sizeof_region_t <= rs -> 0 < page -> page + rs <= USER_TOP ->
  alloc_new_region page h rs =
    Ret (<[page := region_init (rs - sizeof_region_t) (page + sizeof_region_t)]> h, page).
Proof.
  unfold sizeof_region_t. rewrite USER_TOP_eq. intros Hrs Hp Htop.
  unfold alloc_new_region, sizeof_region_t.
  assert (Hne : (page =? MAP_FAILED) = false).
  { apply Z.eqb_neq. change MAP_FAILED with 18446744073709551615. lia. }
  rewrite Hne.
  rewrite (wrap_small (page + 32)) by (rewrite WORD_eq; lia).
  replace (page + 32 - page) with 32 by lia.
  rewrite (wrap_small 32) by (rewrite WORD_eq; lia).
  rewrite (wrap_small (rs - 32)) by (rewrite WORD_eq; lia).
  reflexivity.
Qed.

Lemma fresh_region_at rs page :
  sizeof_region_t <= rs ->
  region_at rs page (region_init (rs - sizeof_region_t) (page + sizeof_region_t)).
Proof.
  unfold region_at, region_init, sizeof_region_t; cbn. lia.
Qed.

Section ArenaInvariant.

Variables (h : gmap Z region_t) (a : arena_t) (l : list Z).
Hypothesis Hinv : arena_inv h a l.

Lemma arena_inv_member q :
  q ∈ l ->
  page_ok (region_size a) q /\
  exists r, h !! q = Some r /\ region_at (region_size a) q r /\ region_wf r.
Proof.
  destruct Hinv as (Hrs & _ & _ & _ & _ & Hall).
  rewrite Forall_forall in Hall. intros Hq.
  destruct (Hall q Hq) as (Hpg & r & Hr & Hat).
  split; [exact Hpg|]. exists r. split; [exact Hr|]. split; [exact Hat|].
  eapply region_at_wf; eassumption.
Qed.

Lemma arena_inv_current :
  current a ∈ l /\ current a <> NULL /\
  exists cur, h !! current a = Some cur /\ next cur = NULL /\
              region_at (region_size a) (current a) cur /\ region_wf cur.
Proof.
  destruct Hinv as (Hrs & Hch & Hlast & _ & _ & _).
  assert (Hin : current a ∈ l) by (apply last_Some_elem_of; exact Hlast).
  split; [exact Hin|].
  destruct (arena_inv_member _ Hin) as ((Hp & _) & r & Hr & Hat & Hwf).
  split; [unfold NULL; lia|].
  exists r. split; [exact Hr|]. split; [|split; assumption].
  eapply chain_last_next; eassumption.
Qed.

Lemma arena_inv_region_size :
  sizeof_region_t <= region_size a < USER_TOP.
Proof.
  destruct arena_inv_current as (Hin & _).
  destruct (arena_inv_member _ Hin) as ((Hp & _ & Htop) & _).
  destruct Hinv as (Hrs & _). lia.
Qed.

Lemma arena_inv_fresh page : h !! page = None -> page ∉ l.
Proof.
  intros Hnone Hin.
  destruct (arena_inv_member _ Hin) as (_ & r & Hr & _). congruence.
Qed.

Lemma arena_inv_count :
  1 <= region_count a /\ region_count a + 1 < WORD.
Proof.
  destruct arena_inv_current as (Hin & _).
  destruct Hinv as (_ & _ & _ & Hnd & Hcnt & Hall).
  assert (Hlen : Z.of_nat (length l) <= USER_TOP).
  { apply NoDup_range_length; [rewrite USER_TOP_eq; lia|exact Hnd|].
    eapply Forall_impl; [exact Hall|]. cbn.
    intros q ((Hp & _ & Htop) & _).
    destruct Hinv as (Hrs & _). unfold sizeof_region_t in Hrs. lia. }
  rewrite Hcnt. rewrite USER_TOP_eq in Hlen. rewrite WORD_eq.
  destruct l; [inversion Hin|]. cbn [length] in *. lia.
Qed.

End ArenaInvariant.

(** ** The paths of [arena_alloc] *)

Lemma arena_alloc_closed page h a size align :
  current a = NULL -> arena_alloc page h a size align = Ret (NULL, h, a).
Proof. intros Hc. unfold arena_alloc. rewrite Hc. reflexivity. Qed.

Lemma arena_alloc_too_large page h a size align :
  wrap (region_size a - sizeof_region_t) < size ->
  arena_alloc page h a size align = Ret (NULL, h, a).
Proof.
  intros Hsz. unfold arena_alloc.
  destruct (current a =? NULL); [reflexivity|].
  apply Z.ltb_lt in Hsz. rewrite Hsz. reflexivity.
Qed.

Lemma load_Some h p r : h !! p = Some r -> load h p = Ret r.
Proof. intros H. unfold load. rewrite H. reflexivity. Qed.

Lemma arena_alloc_in_current page h a size align cur :
  current a <> NULL ->
  size <= wrap (region_size a - sizeof_region_t) ->
  h !! current a = Some cur ->
  region_has_space cur size align = true ->
  arena_alloc page h a size align =
    Ret (fst (region_alloc cur size align),
         <[current a := snd (region_alloc cur size align)]> h, a).
Proof.
  intros Hc Hsz Hcur Hsp. unfold arena_alloc.
  apply Z.eqb_neq in Hc. rewrite Hc.
  apply Z.ltb_ge in Hsz. rewrite Hsz.
  rewrite (load_Some _ _ _ Hcur). cbn. rewrite Hsp.
  destruct (region_alloc cur size align). reflexivity.
Qed.

Lemma arena_alloc_grow page h a size align cur :
  sizeof_region_t <= region_size a ->
  0 < page -> page + region_size a <= USER_TOP -> h !! page = None ->
  current a <> NULL ->
  size <= wrap (region_size a - sizeof_region_t) ->
  h !! current a = Some cur ->
  region_has_space cur size align = false ->
  let r0 := region_init (region_size a - sizeof_region_t) (page + sizeof_region_t) in
  let h2 := <[current a := set_next cur page]> (<[page := r0]> h) in
  arena_alloc page h a size align =
    Ret (fst (region_alloc r0 size align),
         <[page := snd (region_alloc r0 size align)]> h2,
         {| start := start a; current := page; region_size := region_size a;
            region_count := wrap (region_count a + 1) |}).
Proof.
  intros Hrs Hp Htop Hfresh Hc Hsz Hcur Hsp r0 h2.
  assert (Hne : page <> current a) by congruence.
  unfold arena_alloc.
  apply Z.eqb_neq in Hc. rewrite Hc.
  apply Z.ltb_ge in Hsz. rewrite Hsz.
  rewrite (load_Some _ _ _ Hcur). cbn. rewrite Hsp.
  rewrite alloc_new_region_spec by assumption. cbn.
  fold r0.
  assert (H1 : <[page := r0]> h !! current a = Some cur)
    by (rewrite lookup_insert_ne by exact Hne; exact Hcur).
  rewrite (load_Some _ _ _ H1). cbn. fold h2.
  assert (H2 : h2 !! page = Some r0).
  { unfold h2. rewrite lookup_insert_ne by congruence. apply lookup_insert_eq. }
  rewrite (load_Some _ _ _ H2). cbn.
  destruct (region_alloc r0 size align). reflexivity.
Qed.

(** ** The invariant is kept *)

Lemma arena_init_inv h0 rs page h a :
  sizeof_region_t <= rs -> mmap_ok h0 rs page ->
  arena_init page h0 rs = Ret (h, a) ->
  arena_inv h a [page].
Proof.
  intros Hrs (Hfresh & Hp & Hal & Htop) Hinit.
  unfold arena_init in Hinit.
  rewrite alloc_new_region_spec in Hinit by assumption. cbn in Hinit.
  inversion Hinit; subst; clear Hinit.
  unfold arena_inv; cbn.
  split; [exact Hrs|]. split.
  { split; [reflexivity|]. split; [unfold NULL; lia|].
    eexists. split; [apply lookup_insert_eq | reflexivity]. }
  split; [reflexivity|]. split; [apply NoDup_singleton|].
  split; [reflexivity|].
  apply Forall_singleton. split; [repeat split; assumption|].
  eexists. split; [apply lookup_insert_eq|]. apply fresh_region_at. exact Hrs.
Qed.

Lemma arena_inv_update_current h a l cur cur' :
  arena_inv h a l ->
  h !! current a = Some cur ->
  begin cur' = begin cur -> cap cur' = cap cur -> next cur' = next cur ->
  free cur <= free cur' <= begin cur + cap cur ->
  arena_inv (<[current a := cur']> h) a l.
Proof.
  intros Hinv Hcur Hb Hc Hn Hf.
  pose proof Hinv as (Hrs & Hch & Hlast & Hnd & Hcnt & Hall).
  unfold arena_inv. split; [exact Hrs|]. split.
  { eapply chain_agree; [exact Hch|]. intros q r Hq Hr.
    destruct (decide (q = current a)) as [->|Hne].
    - exists cur'. rewrite lookup_insert_eq. split; [reflexivity|]. congruence.
    - exists r. rewrite lookup_insert_ne by congruence. split; [exact Hr|reflexivity]. }
  split; [exact Hlast|]. split; [exact Hnd|]. split; [exact Hcnt|].
  rewrite Forall_forall in Hall |- *. intros q Hq.
  destruct (Hall q Hq) as (Hpg & r & Hr & Hat). split; [exact Hpg|].
  destruct (decide (q = current a)) as [->|Hne].
  - exists cur'. rewrite lookup_insert_eq. split; [reflexivity|].
    assert (r = cur) by congruence. subst r.
    unfold region_at in *. lia.
  - exists r. rewrite lookup_insert_ne by congruence. split; assumption.
Qed.

Lemma arena_inv_grow h a l page cur r0 rn :
  arena_inv h a l ->
  page_ok (region_size a) page -> h !! page = None ->
  h !! current a = Some cur ->
  region_at (region_size a) page rn -> next rn = NULL ->
  arena_inv
    (<[page := rn]> (<[current a := set_next cur page]> (<[page := r0]> h)))
    {| start := start a; current := page; region_size := region_size a;
       region_count := wrap (region_count a + 1) |}
    (l ++ [page]).
Proof.
  intros Hinv Hpg Hfresh Hcur Hat Hnn.
  pose proof (arena_inv_fresh _ _ _ Hinv _ Hfresh) as Hnotin.
  pose proof (arena_inv_count _ _ _ Hinv) as Hcount.
  pose proof (arena_inv_current _ _ _ Hinv) as (Hin & Hcn & _).
  pose proof Hinv as (Hrs & Hch & Hlast & Hnd & Hcnt & Hall).
  assert (Hne : page <> current a) by congruence.
  assert (Hpn : page <> NULL) by (destruct Hpg; unfold NULL; lia).
  set (h' := <[page := rn]> (<[current a := set_next cur page]> (<[page := r0]> h))).
  assert (Hother : forall q, q <> page -> q <> current a -> h' !! q = h !! q).
  { intros q H1 H2. unfold h'.
    rewrite !lookup_insert_ne by congruence. reflexivity. }
  assert (Hc' : h' !! current a = Some (set_next cur page)).
  { unfold h'. rewrite lookup_insert_ne by congruence. apply lookup_insert_eq. }
  assert (Hp' : h' !! page = Some rn) by apply lookup_insert_eq.
  unfold arena_inv; cbn. split; [exact Hrs|]. split.
  { eapply (chain_snoc h h' page (current a)); try eassumption.
    - intros q r Hq Hqc Hr. exists r. split; [|reflexivity].
      rewrite Hother; [exact Hr| |exact Hqc]. intros ->. contradiction.
    - reflexivity. }
  split; [apply last_snoc|]. split.
  { apply NoDup_app. split; [exact Hnd|]. split; [|apply NoDup_singleton].
    intros x Hx Hx'. apply list_elem_of_singleton in Hx'. subst. contradiction. }
  split.
  { rewrite length_app. cbn. rewrite wrap_small by lia. lia. }
  apply Forall_app. split.
  - rewrite Forall_forall in Hall |- *. intros q Hq.
    destruct (Hall q Hq) as (Hpq & r & Hr & Hatq). split; [exact Hpq|].
    destruct (decide (q = current a)) as [->|Hqc].
    + exists (set_next cur page). split; [exact Hc'|].
      assert (r = cur) by congruence. subst r. exact Hatq.
    + exists r. split; [|exact Hatq].
      rewrite Hother; [exact Hr| |exact Hqc]. intros ->. contradiction.
  - apply Forall_singleton. split; [exact Hpg|]. exists rn. split; assumption.
Qed.

Lemma arena_inv_max_payload h a l :
  arena_inv h a l ->
  wrap (region_size a - sizeof_region_t) = region_size a - sizeof_region_t.
Proof.
  intros Hinv. pose proof (arena_inv_region_size _ _ _ Hinv) as Hrs.
  unfold sizeof_region_t in *. rewrite USER_TOP_eq in Hrs.
  apply wrap_small. rewrite WORD_eq. lia.
Qed.

Lemma mmap_ok_page_ok h rs page : mmap_ok h rs page -> page_ok rs page.
Proof. intros (_ & Hp & Hal & Htop). repeat split; assumption. Qed.

Lemma fresh_region_alloc rs page size align :
  sizeof_region_t <= rs -> page_ok rs page -> is_pow2 align ->
  0 <= size < USER_TOP ->
  let r0 := region_init (rs - sizeof_region_t) (page + sizeof_region_t) in
  region_wf r0 /\
  region_at rs page (snd (region_alloc r0 size align)) /\
  next (snd (region_alloc r0 size align)) = NULL.
Proof.
  intros Hrs Hpg Hal Hsz r0.
  assert (Hat : region_at rs page r0) by (apply fresh_region_at; exact Hrs).
  assert (Hwf : region_wf r0) by (eapply region_at_wf; eassumption).
  split; [exact Hwf|].
  destruct (region_alloc r0 size align) as [p rn] eqn:Heq. cbn.
  destruct (region_alloc_frame _ _ _ _ _ Hwf Hal Hsz Heq) as (Hb & Hc & Hn & Hf).
  split; [|rewrite Hn; reflexivity].
  unfold region_at in *. cbn in *. lia.
Qed.

Lemma arena_alloc_inv h a l page size align p h' a' :
  arena_inv h a l -> is_pow2 align -> 0 <= size < WORD ->
  mmap_ok h (region_size a) page ->
  arena_alloc page h a size align = Ret (p, h', a') ->
  arena_inv h' a' l \/ arena_inv h' a' (l ++ [page]).
Proof.
  intros Hinv Hal Hsz Hmm Heq.
  pose proof (arena_inv_max_payload _ _ _ Hinv) as Hmax.
  pose proof (arena_inv_region_size _ _ _ Hinv) as Hrs.
  destruct (arena_inv_current _ _ _ Hinv) as (_ & Hcn & cur & Hcur & _ & _ & Hwf).
  destruct (Z.lt_ge_cases (region_size a - sizeof_region_t) size) as [Hbig|Hfit].
  - rewrite arena_alloc_too_large in Heq by (rewrite Hmax; exact Hbig).
    inversion Heq; subst. left. exact Hinv.
  - assert (Hsz' : 0 <= size < USER_TOP) by (unfold sizeof_region_t in *; lia).
    destruct (region_has_space cur size align) eqn:Hsp.
    + rewrite (arena_alloc_in_current _ _ _ _ _ cur) in Heq
        by (try assumption; rewrite Hmax; exact Hfit).
      inversion Heq; subst; clear Heq. left.
      destruct (region_alloc cur size align) as [p cur'] eqn:Hra. cbn.
      destruct (region_alloc_frame _ _ _ _ _ Hwf Hal Hsz' Hra) as (Hb & Hc & Hn & Hf).
      eapply arena_inv_update_current; eassumption.
    + pose proof (mmap_ok_page_ok _ _ _ Hmm) as Hpg.
      destruct Hmm as (Hfresh & Hp & _ & Htop).
      rewrite (arena_alloc_grow _ _ _ _ _ cur) in Heq
        by (try assumption; try lia; rewrite Hmax; exact Hfit).
      inversion Heq; subst; clear Heq. right.
      destruct (fresh_region_alloc (region_size a) page size align
                  ltac:(lia) Hpg Hal Hsz') as (_ & Hat & Hnn).
      eapply arena_inv_grow; eassumption.
Qed.

(** Every reachable arena is open, its regions form a chain from [start]
    to [current], and each of them is laid out in its mapping. *)
Lemma reachable_inv h a : reachable h a -> exists l, arena_inv h a l.
Proof.
  induction 1 as [h0 rs page h a Hrs Hmm Hinit
                 |h a page size align p h' a' Hre [l IH] Hal Hsz Hmm Heq].
  - exists [page]. eapply arena_init_inv; eassumption.
  - destruct (arena_alloc_inv _ _ _ _ _ _ _ _ _ IH Hal Hsz Hmm Heq) as [H|H];
      eexists; exact H.
Qed.

Lemma chain_functional h l : forall p l', chain h p l -> chain h p l' -> l = l'.
Proof.
  induction l as [|x l IH]; intros p l' H1 H2.
  - cbn in H1. subst p. destruct l' as [|y l']; [reflexivity|].
    cbn in H2. destruct H2 as (-> & Hy & _). contradiction.
  - cbn in H1. destruct H1 as (-> & Hx & r & Hr & H1).
    destruct l' as [|y l'].
    + cbn in H2. contradiction.
    + cbn in H2. destruct H2 as (<- & _ & r' & Hr' & H2).
      assert (r' = r) by congruence. subst r'.
      f_equal. eapply IH; eassumption.
Qed.

Lemma reachable_owned h a q :
  reachable h a -> owns h a q ->
  exists r, h !! q = Some r /\ region_at (region_size a) q r /\ region_wf r.
Proof.
  intros Hre (l' & Hch' & Hq).
  destruct (reachable_inv _ _ Hre) as (l & Hinv).
  pose proof Hinv as (_ & Hch & _).
  rewrite (chain_functional _ _ _ _ Hch' Hch) in Hq.
  destruct (arena_inv_member _ _ _ Hinv _ Hq) as (_ & r & Hr & Hat & Hwf).
  exists r. split; [|split]; assumption.
Qed.

Lemma reachable_open h a :
  reachable h a ->
  current a <> NULL /\ owns h a (current a) /\
  exists cur, h !! current a = Some cur /\ region_wf cur.
Proof.
  intros Hre. destruct (reachable_inv _ _ Hre) as (l & Hinv).
  destruct (arena_inv_current _ _ _ Hinv) as (Hin & Hcn & cur & Hcur & _ & _ & Hwf).
  split; [exact Hcn|]. split.
  - exists l. split; [apply Hinv|exact Hin].
  - exists cur. split; assumption.
Qed.

(** ** Properties of the specification *)

(** C1. For a request whose alignment is a power of two and whose size is
    at most [region_size - sizeof(region_t)], on a reachable arena: when
    [arena_alloc] returns a non-null address [p], [p mod align = 0] and the
    block [[p, p+size)] lies in the span [[begin, begin+cap)] of the region
    that is current after the call (the one the block was carved from); and
    the same holds for [region_alloc] called on any region the arena
    owns. *)
Theorem arena_alloc_aligned_in_region h a size align :
  reachable h a -> is_pow2 align ->
  0 <= size <= region_size a - sizeof_region_t ->
  (forall page p h' a',
     mmap_ok h (region_size a) page ->
     arena_alloc page h a size align = Ret (p, h', a') -> p <> NULL ->
     p mod align = 0 /\
     owns h' a' (current a') /\
     exists r, h' !! current a' = Some r /\ block_in p size r) /\
  (forall q r p r',
     owns h a q -> h !! q = Some r ->
     region_alloc r size align = (p, r') -> p <> NULL ->
     p mod align = 0 /\ block_in p size r /\ block_in p size r').
Proof.
  intros Hre Hal Hsz.
  destruct (reachable_inv _ _ Hre) as (l & Hinv).
  pose proof (arena_inv_max_payload _ _ _ Hinv) as Hmax.
  pose proof (arena_inv_region_size _ _ _ Hinv) as Hrs.
  assert (Hsz' : 0 <= size < USER_TOP) by (unfold sizeof_region_t in *; lia).
  assert (Hblock : forall r p r',
             region_wf r -> region_alloc r size align = (p, r') -> p <> NULL ->
             p mod align = 0 /\ block_in p size r /\ block_in p size r').
  { intros r p r' Hwf Heq Hp.
    destruct (region_alloc_success _ _ _ _ _ Hwf Hal Hsz' Heq Hp)
      as (Hmod & Hlo & Hhi & Hb & Hc & _ & Hwf').
    split; [exact Hmod|].
    destruct Hwf as (_ & Hbf & _). destruct Hwf' as (_ & _ & Hfc' & _).
    unfold block_in. rewrite Hb, Hc in *. lia. }
  split.
  - intros page p h' a' Hmm Heq Hp.
    assert (Hown : owns h' a' (current a')).
    { apply (reachable_open h' a').
      apply (reachable_alloc h a page size align p); try assumption.
      rewrite USER_TOP_eq in Hsz'. rewrite WORD_eq. lia. }
    destruct (arena_inv_current _ _ _ Hinv) as (_ & Hcn & cur & Hcur & _ & _ & Hwf).
    destruct (region_has_space cur size align) eqn:Hsp.
    + rewrite (arena_alloc_in_current _ _ _ _ _ cur) in Heq
        by (try assumption; rewrite Hmax; lia).
      destruct (region_alloc cur size align) as [p0 cur'] eqn:Hra.
      cbn in Heq. inversion Heq; subst; clear Heq.
      destruct (Hblock _ _ _ Hwf Hra Hp) as (Hmod & _ & Hin).
      split; [exact Hmod|]. split; [exact Hown|].
      exists cur'. split; [apply lookup_insert_eq|exact Hin].
    + pose proof (mmap_ok_page_ok _ _ _ Hmm) as Hpg.
      destruct Hmm as (Hfresh & Hpos & _ & Htop).
      rewrite (arena_alloc_grow _ _ _ _ _ cur) in Heq
        by (try assumption; try lia; rewrite Hmax; lia).
      destruct (fresh_region_alloc (region_size a) page size align
                  ltac:(lia) Hpg Hal Hsz') as (Hwf0 & _ & _).
      destruct (region_alloc _ size align) as [p0 rn] eqn:Hra.
      cbn in Heq. inversion Heq; subst; clear Heq. cbn in Hown |- *.
      destruct (Hblock _ _ _ Hwf0 Hra Hp) as (Hmod & _ & Hin).
      split; [exact Hmod|]. split; [exact Hown|].
      exists rn. split; [apply lookup_insert_eq|exact Hin].
  - intros q r p r' Hown Hr Heq Hp.
    destruct (reachable_owned _ _ _ Hre Hown) as (r0 & Hr0 & _ & Hwf).
    assert (r0 = r) by congruence. subst r0.
    eapply Hblock; eassumption.
Qed.

Lemma is_pow2_8 : is_pow2 8.
Proof. reflexivity. Qed.

Lemma test_arena_init : arena_init 4096 ∅ 40 = Ret (test_heap, test_arena).
Proof. reflexivity. Qed.

Lemma test_arena_reachable : reachable test_heap test_arena.
Proof.
  apply (reachable_init ∅ 40 4096).
  - unfold sizeof_region_t. lia.
  - by_evaluation.
  - exact test_arena_init.
Qed.

Lemma test_mmap_ok : mmap_ok test_heap (region_size test_arena) 8192.
Proof. by_evaluation. Qed.

Lemma arena_alloc_aligned_in_region_witness :
  exists p h' a',
    arena_alloc 8192 test_heap test_arena 5 8 = Ret (p, h', a') /\
    p = 4128 /\ p mod 8 = 0 /\
    owns h' a' (current a') /\
    exists r, h' !! current a' = Some r /\ block_in p 5 r.
Proof.
  eexists _, _, _. split; [reflexivity|]. split; [reflexivity|].
  refine (proj1 (arena_alloc_aligned_in_region test_heap test_arena 5 8
                   test_arena_reachable is_pow2_8 _) 8192 _ _ _
                test_mmap_ok eq_refl _).
  - vm_compute. split; discriminate.
  - vm_compute. discriminate.
Defined.

Lemma is_pow2_64 : is_pow2 64.
Proof. reflexivity. Qed.

(** C2, as stated, fails. On the arena of [test_arena], fresh from
    [arena_init], the request [(size 8, align 64)] passes the size test
    ([8 <= 40 - 32]) and the current region lacks space; [arena_alloc] maps
    a second region at 8192 and counts it, but the first 64-aligned address
    of that region is [8256], past its end [8232]: the delegated
    [region_alloc] returns [NULL]. *)
Lemma arena_alloc_new_region_too_small_for_alignment :
  reachable test_heap test_arena /\
  is_pow2 64 /\
  0 <= 8 <= region_size test_arena - sizeof_region_t /\
  mmap_ok test_heap (region_size test_arena) 8192 /\
  (exists cur, test_heap !! current test_arena = Some cur /\
               region_has_space cur 8 64 = false) /\
  exists h' a',
    arena_alloc 8192 test_heap test_arena 8 64 = Ret (NULL, h', a') /\
    region_count a' = region_count test_arena + 1 /\
    h' !! current a' = Some (region_init 8 8224).
Proof.
  split; [exact test_arena_reachable|]. split; [exact is_pow2_64|].
  split; [vm_compute; split; discriminate|]. split; [exact test_mmap_ok|].
  split.
  - eexists. split; reflexivity.
  - eexists _, _. split; [reflexivity|]. split; reflexivity.
Qed.

Lemma small_pow2_divides_base page k :
  0 <= k -> 2 ^ k <= sizeof_region_t -> page mod PAGE_SIZE = 0 ->
  (page + sizeof_region_t) mod 2 ^ k = 0.
Proof.
  unfold sizeof_region_t, PAGE_SIZE. intros Hk Hle Hpg.
  assert (Hk5 : k <= 5).
  { apply (Z.pow_le_mono_r_iff 2); [lia|lia|exact Hle]. }
  apply Z.mod_divide in Hpg; [|lia]. destruct Hpg as [q ->].
  replace 4096 with (2 ^ (12 - k) * 2 ^ k)
    by (rewrite <- Z.pow_add_r by lia; replace (12 - k + k) with 12 by lia; reflexivity).
  replace 32 with (2 ^ (5 - k) * 2 ^ k)
    by (rewrite <- Z.pow_add_r by lia; replace (5 - k + k) with 5 by lia; reflexivity).
  replace (q * (2 ^ (12 - k) * 2 ^ k) + 2 ^ (5 - k) * 2 ^ k)
    with ((q * 2 ^ (12 - k) + 2 ^ (5 - k)) * 2 ^ k) by ring.
  apply Z.mod_mul. pose proof (Z.pow_pos_nonneg 2 k ltac:(lia) Hk). lia.
Qed.

(** C2, amended. For a reachable arena and a request whose alignment is a
    power of two and whose size is at most [region_size - sizeof(region_t)]:
    if the current region lacks space, [arena_alloc] returns, it has created
    exactly one region (at the address [mmap] gave), made it current and
    increased [region_count] by exactly 1. The delegated allocation
    succeeds exactly when the aligned start fits the new region,
    [round_up(begin, align) + size <= begin + cap]; the block then lies in
    the new region. That is the case whenever [align <= sizeof(region_t)]. *)
Theorem arena_alloc_grows_one_region h a page size align cur :
  reachable h a -> is_pow2 align ->
  0 <= size <= region_size a - sizeof_region_t ->
  mmap_ok h (region_size a) page ->
  h !! current a = Some cur -> region_has_space cur size align = false ->
  exists p h' a' rn,
    arena_alloc page h a size align = Ret (p, h', a') /\
    (page ∉ dom h) /\ dom h' = dom h ∪ {[page]} /\
    start a' = start a /\ current a' = page /\
    region_size a' = region_size a /\
    region_count a' = region_count a + 1 /\
    h' !! page = Some rn /\
    begin rn = page + sizeof_region_t /\
    cap rn = region_size a - sizeof_region_t /\
    (p <> NULL <-> round_up (begin rn) align + size <= begin rn + cap rn) /\
    (p <> NULL -> p mod align = 0 /\ block_in p size rn) /\
    (align <= sizeof_region_t -> p <> NULL).
Proof.
  intros Hre Hal Hsz Hmm Hcur Hsp.
  destruct (reachable_inv _ _ Hre) as (l & Hinv).
  pose proof (arena_inv_max_payload _ _ _ Hinv) as Hmax.
  pose proof (arena_inv_region_size _ _ _ Hinv) as Hrs.
  pose proof (arena_inv_count _ _ _ Hinv) as Hcount.
  destruct (arena_inv_current _ _ _ Hinv) as (_ & Hcn & _).
  assert (Hsz' : 0 <= size < USER_TOP) by (unfold sizeof_region_t in *; lia).
  pose proof (mmap_ok_page_ok _ _ _ Hmm) as Hpg.
  pose proof Hmm as (Hfresh & Hpos & Hpal & Htop).
  set (r0 := region_init (region_size a - sizeof_region_t) (page + sizeof_region_t)).
  destruct (fresh_region_alloc (region_size a) page size align
              ltac:(lia) Hpg Hal Hsz') as (Hwf0 & Hat & _).
  fold r0 in Hwf0, Hat.
  pose proof (arena_alloc_grow page h a size align cur ltac:(lia) Hpos Htop
                Hfresh Hcn ltac:(rewrite Hmax; lia) Hcur Hsp) as Heq.
  cbv zeta in Heq. fold r0 in Heq.
  pose proof (region_alloc_spec r0 size align Hwf0 Hal Hsz') as Hspec.
  destruct (align_up_user (free r0) align
              ltac:(destruct Hwf0 as (? & ? & ? & ?); unfold user_address; lia) Hal)
    as (_ & [Hlo Hhi] & Hmod).
  change (free r0) with (page + sizeof_region_t) in Hspec, Hlo, Hhi, Hmod.
  change (begin r0) with (page + sizeof_region_t) in Hspec.
  change (cap r0) with (region_size a - sizeof_region_t) in Hspec.
  set (s := round_up (page + sizeof_region_t) align) in *.
  eexists _, _, _, (snd (region_alloc r0 size align)).
  split; [exact Heq|]. cbn [start current region_size region_count].
  split; [apply not_elem_of_dom; exact Hfresh|].
  split.
  { rewrite !dom_insert_L.
    assert (Hdom : current a ∈ dom h) by (apply elem_of_dom; eauto).
    apply set_eq. intros x. rewrite !elem_of_union, !elem_of_singleton.
    split; [intros [->|[->|[->|Hx]]]|intros [Hx| ->]]; auto. }
  split; [reflexivity|]. split; [reflexivity|]. split; [reflexivity|].
  split; [apply wrap_small; lia|].
  split; [apply lookup_insert_eq|].
  rewrite Hspec.
  destruct (page + sizeof_region_t + (region_size a - sizeof_region_t) <? s + size)
    eqn:Hcmp; unfold r0, region_init; cbn [fst snd begin cap free].
  - apply Z.ltb_lt in Hcmp. fold s.
    split; [reflexivity|]. split; [reflexivity|].
    split; [split; [intros H; contradiction|intros H; lia]|].
    split; [intros H; contradiction|].
    intros Hsmall. exfalso.
    destruct (is_pow2_spec _ Hal) as (k & Hk & ->).
    assert (s = page + sizeof_region_t).
    { apply round_up_aligned; [pose proof (pow2_bounds k Hk); lia|].
      apply small_pow2_divides_base; [lia|exact Hsmall|exact Hpal]. }
    lia.
  - apply Z.ltb_ge in Hcmp. fold s.
    assert (Hs : s <> NULL) by (unfold NULL, sizeof_region_t in *; lia).
    split; [reflexivity|]. split; [reflexivity|].
    split; [split; [intros _; lia|intros _; exact Hs]|].
    split; [|intros _; exact Hs].
    intros _. split; [exact Hmod|]. unfold block_in; cbn. lia.
Qed.

Lemma test_arena_used_reachable : reachable test_heap_used test_arena.
Proof.
  apply (reachable_alloc test_heap test_arena 8192 5 8 4128).
  - exact test_arena_reachable.
  - exact is_pow2_8.
  - rewrite WORD_eq. lia.
  - exact test_mmap_ok.
  - reflexivity.
Qed.

Lemma test_used_mmap_ok : mmap_ok test_heap_used (region_size test_arena) 8192.
Proof. by_evaluation. Qed.

Lemma arena_alloc_grows_one_region_witness :
  exists p h' a' rn,
    arena_alloc 8192 test_heap_used test_arena 5 8 = Ret (p, h', a') /\
    (8192 ∉ dom test_heap_used) /\ dom h' = dom test_heap_used ∪ {[8192]} /\
    start a' = start test_arena /\ current a' = 8192 /\
    region_size a' = region_size test_arena /\
    region_count a' = region_count test_arena + 1 /\
    h' !! 8192 = Some rn /\
    begin rn = 8192 + sizeof_region_t /\
    cap rn = region_size test_arena - sizeof_region_t /\
    (p <> NULL <-> round_up (begin rn) 8 + 5 <= begin rn + cap rn) /\
    (p <> NULL -> p mod 8 = 0 /\ block_in p 5 rn) /\
    (8 <= sizeof_region_t -> p <> NULL).
Proof.
  apply (arena_alloc_grows_one_region test_heap_used test_arena 8192 5 8
           test_region_used test_arena_used_reachable is_pow2_8).
  - vm_compute. split; discriminate.
  - exact test_used_mmap_ok.
  - reflexivity.
  - reflexivity.
Defined.

(** ** Sequences of allocations from one region *)

Lemma region_alloc_keeps_span r size align :
  begin (snd (region_alloc r size align)) = begin r /\
  cap (snd (region_alloc r size align)) = cap r /\
  next (snd (region_alloc r size align)) = next r.
Proof.
  unfold region_alloc.
  destruct (_ >? _); cbn; auto.
Qed.

Lemma ascending_weaken lo lo' blocks :
  lo' <= lo -> ascending lo blocks -> ascending lo' blocks.
Proof.
  destruct blocks as [|[p s] blocks]; cbn; [auto|].
  intros Hle (Hlo & Hs & Hrest). repeat split; [lia|lia|exact Hrest].
Qed.

(** Requests that cannot wrap: blocks come out in address order, each one
    starting at or after the end of the previous one. *)
Lemma region_allocs_ascending reqs : forall r blocks r',
  region_wf r ->
  Forall (fun q => 0 <= q.1 < USER_TOP /\ is_pow2 q.2) reqs ->
  region_allocs r reqs = (blocks, r') ->
  ascending (free r) blocks /\ region_wf r' /\ free r <= free r'.
Proof.
  induction reqs as [|[size align] reqs IH]; intros r blocks r' Hwf Hall Heq.
  - cbn in Heq. inversion Heq; subst. cbn. split; [exact I|]. split; [exact Hwf|lia].
  - apply Forall_cons in Hall as [[Hsz Hal] Hall]. cbn in Hsz, Hal.
    cbn in Heq.
    destruct (region_alloc r size align) as [p r1] eqn:Hra.
    destruct (region_allocs r1 reqs) as [blocks1 r2] eqn:Hrest.
    inversion Heq; subst; clear Heq.
    destruct (region_alloc_frame _ _ _ _ _ Hwf Hal Hsz Hra) as (Hb & Hc & _ & Hf).
    destruct (p =? NULL) eqn:Hp.
    + apply Z.eqb_eq in Hp.
      assert (Hwf1 : region_wf r1).
      { destruct Hwf as (? & ? & ? & ?). unfold region_wf. rewrite Hb, Hc. lia. }
      destruct (IH _ _ _ Hwf1 Hall Hrest) as (Hasc & Hwf2 & Hle).
      split; [eapply ascending_weaken; [|exact Hasc]; lia|].
      split; [exact Hwf2|lia].
    + apply Z.eqb_neq in Hp.
      destruct (region_alloc_success _ _ _ _ _ Hwf Hal Hsz Hra Hp)
        as (_ & Hlo & Hhi & _ & _ & _ & Hwf1).
      destruct (IH _ _ _ Hwf1 Hall Hrest) as (Hasc & Hwf2 & Hle).
      cbn. rewrite Hhi.
      split; [split; [lia|split; [lia|exact Hasc]]|].
      split; [exact Hwf2|lia].
Qed.

Lemma ascending_later lo blocks : forall i b,
  ascending lo blocks -> blocks !! i = Some b -> lo <= b.1 /\ 0 <= b.2.
Proof.
  revert lo. induction blocks as [|[p s] blocks IH]; intros lo i b Hasc Hi.
  - destruct i; discriminate.
  - cbn in Hasc. destruct Hasc as (Hlo & Hs & Hrest).
    destruct i as [|i]; cbn in Hi.
    + inversion Hi; subst. cbn. lia.
    + destruct (IH _ _ _ Hrest Hi). lia.
Qed.

Lemma ascending_disjoint_ordered lo blocks : forall i j bi bj,
  ascending lo blocks -> (i < j)%nat ->
  blocks !! i = Some bi -> blocks !! j = Some bj ->
  bi.1 <= bj.1 /\ overlaps bi.1 bi.2 bj.1 bj.2 = false.
Proof.
  revert lo. induction blocks as [|[p s] blocks IH]; intros lo i j bi bj Hasc Hij Hi Hj.
  - destruct i; discriminate.
  - cbn in Hasc. destruct Hasc as (Hlo & Hs & Hrest).
    destruct j as [|j]; [lia|]. cbn in Hj.
    destruct i as [|i]; cbn in Hi.
    + inversion Hi; subst; clear Hi. cbn.
      destruct (ascending_later _ _ _ _ Hrest Hj) as (Hge & Hnn).
      split; [lia|]. unfold overlaps.
      assert (Hlt : (bj.1 <? p + s) = false) by (apply Z.ltb_ge; lia).
      rewrite Hlt. apply andb_false_r.
    + eapply IH; [exact Hrest| |exact Hi|exact Hj]. lia.
Qed.

(** When no request can wrap (sizes below [2^63], on a well-formed
    region), the blocks of the successful calls are in address order and
    pairwise disjoint. *)
Lemma region_allocs_disjoint_ordered r reqs blocks r' i j bi bj :
  region_wf r ->
  Forall (fun q => 0 <= q.1 < USER_TOP /\ is_pow2 q.2) reqs ->
  region_allocs r reqs = (blocks, r') ->
  (i < j)%nat -> blocks !! i = Some bi -> blocks !! j = Some bj ->
  bi.1 <= bj.1 /\ overlaps bi.1 bi.2 bj.1 bj.2 = false.
Proof.
  intros Hwf Hall Heq Hij Hi Hj.
  destruct (region_allocs_ascending _ _ _ _ Hwf Hall Heq) as (Hasc & _).
  eapply ascending_disjoint_ordered; eassumption.
Qed.

(** C3 does not hold of the code when [start + size] wraps. On the region
    of [test_region] (ten bytes at [test_buf]), [region_alloc(2^64 - 50, 1)]
    passes the bound test, because [test_buf + (2^64 - 50)] wraps to
    [test_buf - 50], returns [test_buf] and leaves the cursor at
    [test_buf - 50]; [region_alloc(60, 1)] then returns [test_buf - 50].
    Both calls succeed; the second address is below the first, and the
    second block [[test_buf - 50, test_buf + 10)] contains the first
    address. *)
Theorem region_allocs_wrapped_request_breaks_order :
  is_pow2 1 /\
  region_allocs test_region [(WORD - 50, 1); (60, 1)] =
    ([(test_buf, WORD - 50); (test_buf - 50, 60)],
     {| next := NULL; cap := 10; free := test_buf + 10; begin := test_buf |}) /\
  test_buf <> NULL /\ test_buf - 50 <> NULL /\
  test_buf - 50 < test_buf /\
  overlaps test_buf (WORD - 50) (test_buf - 50) 60 = true.
Proof.
  split; [reflexivity|]. split; [reflexivity|].
  split; [discriminate|]. split; [discriminate|].
  split; reflexivity.
Qed.

(** C7 does not hold of the code when [start + size] wraps. On the region
    of [test_region], well formed with its cursor at [begin],
    [region_alloc(2^64 - 50, 1)] returns a non-null pointer and moves the
    cursor 50 bytes below [begin]: the cursor went backwards and
    [begin <= free] no longer holds. [begin] and [cap] are unchanged. *)
Theorem region_alloc_wrapped_request_moves_cursor_back :
  region_wf test_region /\ is_pow2 1 /\
  region_alloc test_region (WORD - 50) 1 =
    (test_buf,
     {| next := NULL; cap := 10; free := test_buf - 50; begin := test_buf |}) /\
  free (snd (region_alloc test_region (WORD - 50) 1)) < free test_region /\
  free (snd (region_alloc test_region (WORD - 50) 1))
    < begin (snd (region_alloc test_region (WORD - 50) 1)).
Proof.
  split; [by_evaluation|].
  split; [reflexivity|]. split; [reflexivity|]. split; reflexivity.
Qed.

(** When the region size holds the header, the test of line 116 compares
    the size with the integer difference: a request above
    [region_size - sizeof(region_t)] gets [NULL] and the whole state,
    [region_count] and the set of regions included, is as before, whatever
    [mmap] would answer. *)
Lemma arena_alloc_above_payload page h a size align :
  sizeof_region_t <= region_size a < WORD ->
  region_size a - sizeof_region_t < size ->
  arena_alloc page h a size align = Ret (NULL, h, a).
Proof.
  intros Hrs Hsz. apply arena_alloc_too_large.
  rewrite wrap_small; [exact Hsz|]. unfold sizeof_region_t in *. lia.
Qed.

(** C4 does not hold of the code when [region_size - sizeof(region_t)]
    wraps. [arena_init] with a region size of 8 bytes succeeds. The request
    for 16 bytes is larger than a whole region, and larger than
    [region_size - sizeof(region_t) = -24], but line 116 compares it with
    the [size_t] value [2^64 - 24] and lets it pass: [arena_alloc] finds no
    space, maps a second region at the address [mmap] gives, counts it
    ([region_count] goes from 1 to 2) and returns [NULL]. *)
Theorem arena_alloc_oversized_request_maps_region :
  exists h a h' a',
    mmap_ok ∅ 8 4096 /\
    arena_init 4096 ∅ 8 = Ret (h, a) /\
    region_size a < 16 /\
    region_size a - sizeof_region_t < 16 /\
    wrap (region_size a - sizeof_region_t) = WORD - 24 /\
    mmap_ok h (region_size a) 8192 /\
    arena_alloc 8192 h a 16 1 = Ret (NULL, h', a') /\
    region_count a = 1 /\ region_count a' = 2 /\
    current a' = 8192 /\ h !! 8192 = None /\ is_Some (h' !! 8192).
Proof.
  eexists _, _, _, _.
  split; [by_evaluation|]. split; [reflexivity|].
  split; [reflexivity|]. split; [reflexivity|]. split; [reflexivity|].
  split; [by_evaluation|]. split; [reflexivity|].
  split; [reflexivity|]. split; [reflexivity|]. split; [reflexivity|].
  split; [reflexivity|]. eexists. reflexivity.
Qed.

(** On a reachable arena the [size_t] difference is the integer one. *)
Lemma reachable_max_payload h a :
  reachable h a ->
  wrap (region_size a - sizeof_region_t) = region_size a - sizeof_region_t.
Proof.
  intros Hre. destruct (reachable_inv _ _ Hre) as (l & Hinv).
  eapply arena_inv_max_payload. exact Hinv.
Qed.

(** C9. When [arena_alloc] returns [NULL] from the closed-arena test
    ([current] is [NULL]) or from the too-large test (size greater than the
    [size_t] value [region_size - sizeof(region_t)]), the arena record and
    the store of regions are exactly as before the call. *)
Theorem arena_alloc_refusal_keeps_state page h a size align :
  current a = NULL \/ wrap (region_size a - sizeof_region_t) < size ->
  arena_alloc page h a size align = Ret (NULL, h, a).
Proof.
  intros [Hclosed|Hbig].
  - apply arena_alloc_closed. exact Hclosed.
  - apply arena_alloc_too_large. exact Hbig.
Qed.

Lemma arena_alloc_refusal_keeps_state_witness :
  arena_alloc 12288 test_heap test_arena 9 16 = Ret (NULL, test_heap, test_arena).
Proof.
  apply (arena_alloc_refusal_keeps_state 12288 test_heap test_arena 9 16).
  right. vm_compute. reflexivity.
Defined.

(** ** Release *)

(** The loop unmaps every region of the chain and nothing else, given one
    unit of fuel per region. *)
Lemma release_chain_spec size l : forall h p fuel,
  chain h p l -> NoDup l -> (length l <= fuel)%nat ->
  exists h', release_chain fuel h p size = Ret h' /\
             (forall q, q ∈ l -> h' !! q = None) /\
             (forall q, q ∉ l -> h' !! q = h !! q).
Proof.
  induction l as [|x l IH]; intros h p fuel Hch Hnd Hfuel.
  - cbn in Hch. subst p. exists h. split.
    + destruct fuel; reflexivity.
    + split; [intros q Hq; inversion Hq|reflexivity].
  - cbn in Hch. destruct Hch as (-> & Hx & r & Hr & Hch).
    apply NoDup_cons in Hnd as [Hnotin Hnd].
    destruct fuel as [|fuel]; [cbn in Hfuel; lia|].
    assert (Hch' : chain (delete x h) (next r) l).
    { eapply chain_agree; [exact Hch|]. intros q r0 Hq Hr0.
      exists r0. split; [|reflexivity].
      rewrite lookup_delete_ne; [exact Hr0|]. intros ->. contradiction. }
    destruct (IH _ _ fuel Hch' Hnd ltac:(cbn in Hfuel; lia)) as (h' & Hrel & Hin & Hout).
    exists h'. split.
    + cbn [release_chain]. apply Z.eqb_neq in Hx. rewrite Hx.
      rewrite (load_Some _ _ _ Hr). exact Hrel.
    + split.
      * intros q Hq. apply elem_of_cons in Hq as [->|Hq]; [|apply Hin; exact Hq].
        rewrite Hout by exact Hnotin. apply lookup_delete_eq.
      * intros q Hq. apply not_elem_of_cons in Hq as [Hqx Hq].
        rewrite Hout by exact Hq. apply lookup_delete_ne. congruence.
Qed.

Lemma arena_release_result fuel h a h' a' :
  arena_release fuel h a = Ret (h', a') ->
  start a' = NULL /\ current a' = NULL /\
  region_size a' = region_size a /\ region_count a' = 0.
Proof.
  unfold arena_release. destruct (release_chain fuel h (start a) (region_size a)); cbn.
  - intros Heq. inversion Heq. cbn. auto.
  - discriminate.
Qed.

(** C5. [arena_release] on a reachable arena returns (one unit of fuel per
    counted region is enough for its loop) and no region the arena owned is
    live afterwards. Whenever it returns, [region_count] is 0, [start] and
    [current] are [NULL], and every later [arena_alloc], whatever the size,
    the alignment, the store and the answer [mmap] would give, returns
    [NULL] and leaves the state as it is. It holds for the empty store too,
    where any dereference would be a fault: the call reads no region. *)
Theorem arena_release_closes_arena h a :
  reachable h a ->
  (exists h' a',
     arena_release (Z.to_nat (region_count a)) h a = Ret (h', a') /\
     (forall q, owns h a q -> h' !! q = None)) /\
  (forall fuel h' a',
     arena_release fuel h a = Ret (h', a') ->
     region_count a' = 0 /\ start a' = NULL /\ current a' = NULL /\
     region_size a' = region_size a /\
     (forall page hx size align,
        arena_alloc page hx a' size align = Ret (NULL, hx, a'))).
Proof.
  intros Hre. split.
  - destruct (reachable_inv _ _ Hre) as (l & Hinv).
    pose proof Hinv as (_ & Hch & _ & Hnd & Hcnt & _).
    destruct (release_chain_spec (region_size a) l h (start a)
                (Z.to_nat (region_count a)) Hch Hnd ltac:(lia))
      as (h' & Hrel & Hin & _).
    eexists h', _. split.
    { unfold arena_release. rewrite Hrel. reflexivity. }
    intros q (l' & Hch' & Hq). apply Hin.
    rewrite <- (chain_functional _ _ _ _ Hch' Hch). exact Hq.
  - intros fuel h' a' Heq.
    destruct (arena_release_result _ _ _ _ _ Heq) as (Hs & Hc & Hrs & Hn).
    split; [exact Hn|]. split; [exact Hs|]. split; [exact Hc|].
    split; [exact Hrs|].
    intros page hx size align. apply arena_alloc_closed. exact Hc.
Qed.

Lemma arena_release_closes_arena_witness :
  (exists h' a',
     arena_release 1 test_heap_used test_arena = Ret (h', a') /\
     (forall q, owns test_heap_used test_arena q -> h' !! q = None)) /\
  arena_alloc 8192 ∅ test_arena_released 2 2 = Ret (NULL, ∅, test_arena_released).
Proof.
  destruct (arena_release_closes_arena test_heap_used test_arena
              test_arena_used_reachable) as (Hreturns & Hclosed).
  split; [exact Hreturns|].
  destruct (Hclosed 1%nat ∅ test_arena_released eq_refl) as (_ & _ & _ & _ & Halloc).
  apply Halloc.
Defined.

(** Releasing twice is releasing once. *)
Lemma arena_release_twice fuel fuel' h a h' a' :
  arena_release fuel h a = Ret (h', a') ->
  arena_release fuel' h' a' = Ret (h', a').
Proof.
  intros Heq.
  destruct (arena_release_result _ _ _ _ _ Heq) as (Hs & Hc & _ & Hn).
  unfold arena_release. rewrite Hs.
  destruct a' as [s c rs n]. cbn in Hs, Hc, Hn. subst.
  destruct fuel'; reflexivity.
Qed.

(** C8. On an arena that is already released ([start] and [current] are
    [NULL], [region_count] is 0) [arena_release] returns, with any fuel,
    and leaves the arena record and the store of regions exactly as they
    were: no region is unmapped. *)
Theorem arena_release_idempotent fuel h a :
  start a = NULL -> current a = NULL -> region_count a = 0 ->
  arena_release fuel h a = Ret (h, a).
Proof.
  intros Hs Hc Hn. unfold arena_release. rewrite Hs.
  assert (Hloop : release_chain fuel h NULL (region_size a) = Ret h)
    by (destruct fuel; reflexivity).
  rewrite Hloop. cbn.
  destruct a as [s c rs n]. cbn in Hs, Hc, Hn. subst. reflexivity.
Qed.

Lemma arena_release_idempotent_witness :
  arena_release 0 ∅ test_arena_released = Ret (∅, test_arena_released).
Proof.
  apply (arena_release_idempotent 0 ∅ test_arena_released); reflexivity.
Defined.

(** ** The space test and the allocation agree *)

(** C6. For a region whose cursor is a user address, and an alignment that
    is a power of two: [region_has_space] returns true if and only if
    [region_alloc] on the same region returns a non-null pointer; that
    pointer is the aligned candidate start [align_up(free, align)], the
    address whose bound [region_has_space] tests, and both take their
    decision on the same comparison. [region_has_space] only returns a
    boolean: it leaves the region as it is. *)
Theorem region_has_space_iff_region_alloc r size align :
  is_pow2 align -> user_address (free r) ->
  (region_has_space r size align = true <->
   fst (region_alloc r size align) <> NULL) /\
  (region_has_space r size align = true ->
   fst (region_alloc r size align) = align_up (free r) align) /\
  (region_has_space r size align = false ->
   region_alloc r size align = (NULL, r)) /\
  region_has_space r size align =
    negb (wrap (align_up (free r) align + size) >? wrap (begin r + cap r)).
Proof.
  intros Hal Hfree.
  destruct (align_up_user (free r) align Hfree Hal) as (Hau & [Hlo _] & _).
  assert (Hnz : align_up (free r) align <> NULL).
  { rewrite Hau. unfold user_address in Hfree. unfold NULL. lia. }
  unfold region_has_space, region_alloc.
  destruct (wrap (align_up (free r) align + size) >? wrap (begin r + cap r)); cbn.
  - split; [split; [discriminate|intros H; contradiction]|].
    split; [discriminate|]. split; reflexivity.
  - split; [split; [intros _; exact Hnz|reflexivity]|].
    split; [reflexivity|]. split; [discriminate|reflexivity].
Qed.

Lemma is_pow2_4 : is_pow2 4.
Proof. reflexivity. Qed.

Lemma test_region_user_address : user_address (free test_region).
Proof. by_evaluation. Qed.

Lemma region_has_space_iff_region_alloc_witness :
  (region_has_space test_region 3 4 = true <->
   fst (region_alloc test_region 3 4) <> NULL) /\
  (region_has_space test_region 3 4 = true ->
   fst (region_alloc test_region 3 4) = align_up (free test_region) 4) /\
  (region_has_space test_region 3 4 = false ->
   region_alloc test_region 3 4 = (NULL, test_region)) /\
  region_has_space test_region 3 4 =
    negb (wrap (align_up (free test_region) 4 + 3)
            >? wrap (begin test_region + cap test_region)).
Proof.
  exact (region_has_space_iff_region_alloc test_region 3 4
           is_pow2_4 test_region_user_address).
Defined.

(** ** Zero-size requests *)

Lemma region_alloc_zero r :
  region_wf r -> region_alloc r 0 1 = (free r, r).
Proof.
  intros Hwf. pose proof Hwf as (Hb & Hbf & Hfc & Htop).
  rewrite region_alloc_spec; [|exact Hwf|reflexivity|rewrite USER_TOP_eq; lia].
  assert (Hs : round_up (free r) 1 = free r).
  { apply round_up_aligned; [lia|apply Z.mod_1_r]. }
  rewrite Hs.
  assert (Hcmp : (begin r + cap r <? free r + 0) = false) by (apply Z.ltb_ge; lia).
  rewrite Hcmp. f_equal. destruct r; cbn. f_equal. lia.
Qed.

Lemma arena_alloc_zero page h a r :
  current a <> NULL -> h !! current a = Some r -> region_wf r ->
  arena_alloc page h a 0 1 = Ret (free r, h, a).
Proof.
  intros Hc Hr Hwf.
  assert (Hsp : region_has_space r 0 1 = true).
  { rewrite region_has_space_spec;
      [|exact Hwf|reflexivity|rewrite USER_TOP_eq; lia].
    rewrite round_up_aligned by (try apply Z.mod_1_r; lia).
    destruct Hwf as (_ & _ & Hfc & _).
    apply negb_true_iff, Z.ltb_ge. lia. }
  rewrite (arena_alloc_in_current page h a 0 1 r Hc
             ltac:(apply wrap_range) Hr Hsp).
  rewrite (region_alloc_zero r Hwf). cbn.
  rewrite (insert_id h (current a) r Hr). reflexivity.
Qed.

(** C10. On a well-formed region ([begin <= free <= begin + cap], a span
    of user addresses) [region_alloc(0, 1)] succeeds, returns the cursor
    and leaves the region, cursor included, as it is. So on an open arena
    whose current region is that region, any number of [arena_alloc(0, 1)]
    calls all return that same non-null address and leave the state as it
    is: [region_count] does not change and no region is created, whatever
    [mmap] would answer. Every reachable arena is open with a well-formed
    current region ([reachable_open]). *)
Theorem zero_size_alloc_is_idle r :
  region_wf r ->
  region_alloc r 0 1 = (free r, r) /\ free r <> NULL /\
  (forall h a pages,
     current a <> NULL -> h !! current a = Some r ->
     arena_allocs pages h a 0 1 = Ret (replicate (length pages) (free r), h, a)).
Proof.
  intros Hwf. split; [apply region_alloc_zero; exact Hwf|].
  split; [destruct Hwf as (? & ? & _); unfold NULL; lia|].
  intros h a pages Hc Hr. induction pages as [|page pages IH]; [reflexivity|].
  cbn [arena_allocs]. rewrite (arena_alloc_zero page h a r Hc Hr Hwf). cbn.
  rewrite IH. reflexivity.
Qed.

Lemma test_region_used_wf : region_wf test_region_used.
Proof. by_evaluation. Qed.

Lemma zero_size_alloc_is_idle_witness :
  region_alloc test_region_used 0 1 = (4133, test_region_used) /\
  arena_allocs [8192; 8192; 8192] test_heap_used test_arena 0 1 =
    Ret ([4133; 4133; 4133], test_heap_used, test_arena).
Proof.
  destruct (zero_size_alloc_is_idle test_region_used test_region_used_wf)
    as (H1 & _ & H2).
  split; [exact H1|].
  apply (H2 test_heap_used test_arena [8192; 8192; 8192]).
  - vm_compute. discriminate.
  - reflexivity.
Defined.

(** * Further properties of the code *)

(** ** Rounding *)

Lemma round_up_least addr n m :
  0 < n -> addr <= m -> m mod n = 0 -> round_up addr n <= m.
Proof.
  intros Hn Hle Hm. unfold round_up.
  apply Z.mod_divide in Hm; [|lia]. destruct Hm as [k ->].
  apply Z.mul_le_mono_nonneg_r; [lia|].
  apply Z.lt_succ_r. apply Z.div_lt_upper_bound; [lia|]. nia.
Qed.

Lemma round_up_mono a b n : 0 < n -> a <= b -> round_up a n <= round_up b n.
Proof.
  intros Hn Hab. unfold round_up.
  apply Z.mul_le_mono_nonneg_r; [lia|].
  apply Z.div_le_mono; lia.
Qed.

Lemma round_up_next s d n :
  0 < n -> s mod n = 0 -> 0 < d <= n -> round_up (s + d) n = s + n.
Proof.
  intros Hn Hs Hd. unfold round_up.
  apply Z.mod_divide in Hs; [|lia]. destruct Hs as [q ->].
  replace (q * n + d + n - 1) with ((d - 1) + (q + 1) * n) by ring.
  rewrite Z.div_add by lia. rewrite Z.div_small by lia. ring.
Qed.

(** X1. For a power-of-two alignment and a user address, [align_up] returns
    the least multiple of [align] that is not below [addr]: it is a
    multiple, it lies in [[addr, addr + align)], no multiple of [align]
    from [addr] on is smaller, an aligned address is returned as it is, and
    rounding twice is rounding once. *)
Theorem align_up_least_multiple addr align :
  user_address addr -> is_pow2 align ->
  align_up addr align mod align = 0 /\
  addr <= align_up addr align < addr + align /\
  (forall m, addr <= m -> m mod align = 0 -> align_up addr align <= m) /\
  (addr mod align = 0 -> align_up addr align = addr) /\
  align_up (align_up addr align) align = align_up addr align.
Proof.
  intros Ha Hal.
  destruct (align_up_user addr align Ha Hal) as (Hau & [Hlo Hhi] & Hmod).
  destruct (is_pow2_spec _ Hal) as (k & Hk & Hk2).
  assert (Hpos : 0 < align) by (pose proof (pow2_bounds k Hk); lia).
  assert (Hfix : forall x, user_address x -> x mod align = 0 ->
                           align_up x align = x).
  { intros x Hx Hxm. destruct (align_up_user x align Hx Hal) as (-> & _).
    apply round_up_aligned; assumption. }
  rewrite Hau. split; [exact Hmod|].
  split; [apply round_up_bounds; exact Hpos|].
  split; [intros m Hm Hmm; apply round_up_least; assumption|].
  split; [intros Hm; apply round_up_aligned; assumption|].
  apply Hfix; [|exact Hmod]. unfold user_address in *. lia.
Qed.

Lemma align_up_least_multiple_witness :
  align_up 4133 8 mod 8 = 0 /\
  4133 <= align_up 4133 8 < 4133 + 8 /\
  (forall m, 4133 <= m -> m mod 8 = 0 -> align_up 4133 8 <= m) /\
  (4133 mod 8 = 0 -> align_up 4133 8 = 4133) /\
  align_up (align_up 4133 8) 8 = align_up 4133 8.
Proof.
  apply (align_up_least_multiple 4133 8); [by_evaluation|exact is_pow2_8].
Defined.

(** ** A zero alignment *)

Lemma align_up_zero addr : align_up addr 0 = 0.
Proof.
  unfold align_up.
  change (wrap (0 - 1)) with 18446744073709551615.
  change (wrap (Z.lnot 18446744073709551615)) with 0.
  apply Z.land_0_r.
Qed.

(** X2. With [align = 0] the candidate start is address 0, whatever the
    cursor. For a size that is not above the end of the region,
    [region_has_space] answers true, and [region_alloc] returns [NULL] (the
    address 0) after it has moved the cursor to the address [size]: the
    caller sees a failure and the region is no longer usable. *)
Theorem region_alloc_zero_align_resets_cursor r size :
  0 <= size <= wrap (begin r + cap r) -> size < WORD ->
  region_has_space r size 0 = true /\
  region_alloc r size 0 =
    (NULL, {| next := next r; cap := cap r; free := size; begin := begin r |}).
Proof.
  intros Hsz Hw.
  assert (Hcmp : (wrap (0 + size) >? wrap (begin r + cap r)) = false).
  { rewrite Z.gtb_ltb. apply Z.ltb_ge. rewrite Z.add_0_l.
    rewrite (wrap_small size) by lia. lia. }
  unfold region_has_space, region_alloc. rewrite align_up_zero, Hcmp.
  split; [reflexivity|].
  rewrite wrap_sub_add, wrap_add_l, Z.add_0_l.
  rewrite (wrap_small size) by lia. reflexivity.
Qed.

Lemma region_alloc_zero_align_resets_cursor_witness :
  region_has_space test_region 3 0 = true /\
  region_alloc test_region 3 0 =
    (NULL, {| next := next test_region; cap := cap test_region; free := 3;
              begin := begin test_region |}).
Proof.
  apply (region_alloc_zero_align_resets_cursor test_region 3);
    vm_compute; intuition discriminate.
Defined.

(** ** Packing inside a region *)

(** X3. A successful [region_alloc] on a well-formed region, for a size
    below [2^63], wastes less than [align] bytes: the block starts in
    [[free, free + align)], at [free] itself when the cursor is aligned,
    and the cursor ends right behind the block. So a following request
    with alignment 1, when it succeeds, is given the very next byte. *)
Theorem region_alloc_packs_tightly r size align p r' :
  region_wf r -> is_pow2 align -> 0 <= size < USER_TOP ->
  region_alloc r size align = (p, r') -> p <> NULL ->
  free r <= p < free r + align /\
  (free r mod align = 0 -> p = free r) /\
  free r' = p + size /\
  (forall size2, 0 <= size2 < USER_TOP ->
     fst (region_alloc r' size2 1) <> NULL ->
     fst (region_alloc r' size2 1) = p + size).
Proof.
  intros Hwf Hal Hsz Heq Hp.
  destruct (region_alloc_success _ _ _ _ _ Hwf Hal Hsz Heq Hp)
    as (_ & _ & Hend & _ & _ & _ & Hwf').
  rewrite region_alloc_spec in Heq by assumption.
  destruct (is_pow2_spec _ Hal) as (k & Hk & Hk2).
  assert (Hpos : 0 < align) by (pose proof (pow2_bounds k Hk); lia).
  destruct (begin r + cap r <? round_up (free r) align + size);
    injection Heq as Hp' Hr'; [subst p; contradiction|].
  subst p r'.
  split; [apply round_up_bounds; exact Hpos|].
  split; [intros Hm; apply round_up_aligned; assumption|].
  split; [reflexivity|].
  intros size2 Hsz2 Hnn.
  rewrite (region_alloc_spec _ size2 1 Hwf' ltac:(reflexivity) Hsz2) in Hnn |- *.
  cbn [free begin cap] in Hnn |- *.
  rewrite (round_up_aligned _ 1) in Hnn |- * by (try apply Z.mod_1_r; lia).
  destruct (_ <? _); cbn in Hnn |- *; [contradiction|reflexivity].
Qed.

Lemma region_alloc_packs_tightly_witness :
  test_buf <= test_buf < test_buf + 4 /\
  (free test_region mod 4 = 0 -> test_buf = free test_region) /\
  free (snd (region_alloc test_region 3 4)) = test_buf + 3 /\
  (forall size2, 0 <= size2 < USER_TOP ->
     fst (region_alloc (snd (region_alloc test_region 3 4)) size2 1) <> NULL ->
     fst (region_alloc (snd (region_alloc test_region 3 4)) size2 1) = test_buf + 3).
Proof.
  apply (region_alloc_packs_tightly test_region 3 4 test_buf
           (snd (region_alloc test_region 3 4))).
  - by_evaluation.
  - exact is_pow2_4.
  - rewrite USER_TOP_eq. lia.
  - reflexivity.
  - vm_compute. discriminate.
Defined.

(** ** A region never regains space *)

Lemma region_allocs_keeps_span reqs : forall r blocks r',
  region_allocs r reqs = (blocks, r') -> begin r' = begin r /\ cap r' = cap r.
Proof.
  induction reqs as [|[size align] reqs IH]; intros r blocks r' Heq; cbn in Heq.
  - inversion Heq. auto.
  - pose proof (region_alloc_keeps_span r size align) as (Hb & Hc & _).
    destruct (region_alloc r size align) as [p r1].
    destruct (region_allocs r1 reqs) as [blocks1 r2] eqn:Hrest.
    inversion Heq; subst. destruct (IH _ _ _ Hrest) as (Hb' & Hc').
    cbn in Hb, Hc. split; congruence.
Qed.

(** X4. Once a well-formed region has no space for a request, it never has
    again: after any further requests (sizes below [2^63], power-of-two
    alignments) on the same region, [region_has_space] is still false for
    it and [region_alloc] still returns [NULL] and leaves the region as it
    is. Nothing is ever given back to a region. *)
Theorem region_exhaustion_is_permanent r reqs blocks r' size align :
  region_wf r ->
  Forall (fun q => 0 <= q.1 < USER_TOP /\ is_pow2 q.2) reqs ->
  is_pow2 align -> 0 <= size < USER_TOP ->
  region_has_space r size align = false ->
  region_allocs r reqs = (blocks, r') ->
  region_has_space r' size align = false /\
  region_alloc r' size align = (NULL, r').
Proof.
  intros Hwf Hall Hal Hsz Hfull Heq.
  destruct (region_allocs_ascending _ _ _ _ Hwf Hall Heq) as (_ & Hwf' & Hle).
  destruct (region_allocs_keeps_span _ _ _ _ Heq) as (Hb & Hc).
  destruct (is_pow2_spec _ Hal) as (k & Hk & Hk2).
  assert (Hpos : 0 < align) by (pose proof (pow2_bounds k Hk); lia).
  pose proof (round_up_mono (free r) (free r') align Hpos Hle) as Hmono.
  rewrite region_has_space_spec in Hfull by assumption.
  apply negb_false_iff, Z.ltb_lt in Hfull.
  assert (Hcmp : (begin r' + cap r' <? round_up (free r') align + size) = true)
    by (apply Z.ltb_lt; lia).
  rewrite region_has_space_spec, region_alloc_spec by assumption.
  rewrite Hcmp. split; reflexivity.
Qed.

Lemma region_exhaustion_is_permanent_witness :
  region_has_space (snd (region_allocs test_region_used [(1, 1); (2, 1)])) 5 8 = false /\
  region_alloc (snd (region_allocs test_region_used [(1, 1); (2, 1)])) 5 8 =
    (NULL, snd (region_allocs test_region_used [(1, 1); (2, 1)])).
Proof.
  apply (region_exhaustion_is_permanent test_region_used [(1, 1); (2, 1)]
           (fst (region_allocs test_region_used [(1, 1); (2, 1)]))).
  - exact test_region_used_wf.
  - repeat constructor; vm_compute; intuition discriminate.
  - exact is_pow2_8.
  - rewrite USER_TOP_eq. lia.
  - reflexivity.
  - reflexivity.
Defined.

(** X5. On a well-formed region, room for a request is room for every
    smaller request with the same alignment. *)
Theorem region_has_space_for_smaller r size size' align :
  region_wf r -> is_pow2 align -> 0 <= size' <= size -> size < USER_TOP ->
  region_has_space r size align = true ->
  region_has_space r size' align = true.
Proof.
  intros Hwf Hal Hle Hsz Hsp.
  rewrite region_has_space_spec in Hsp |- * by (try assumption; lia).
  apply negb_true_iff, Z.ltb_ge in Hsp.
  apply negb_true_iff, Z.ltb_ge. lia.
Qed.

Lemma region_has_space_for_smaller_witness :
  region_has_space test_region 2 4 = true.
Proof.
  apply (region_has_space_for_smaller test_region 3 2 4).
  - by_evaluation.
  - exact is_pow2_4.
  - lia.
  - rewrite USER_TOP_eq. lia.
  - reflexivity.
Defined.

(** ** Creation and the first block *)

Lemma fresh_region_first_block rs page size align :
  sizeof_region_t <= rs -> page_ok rs page ->
  is_pow2 align -> align <= sizeof_region_t ->
  0 <= size <= rs - sizeof_region_t ->
  let r0 := region_init (rs - sizeof_region_t) (page + sizeof_region_t) in
  region_has_space r0 size align = true /\
  region_alloc r0 size align =
    (page + sizeof_region_t,
     {| next := NULL; cap := rs - sizeof_region_t;
        free := page + sizeof_region_t + size;
        begin := page + sizeof_region_t |}).
Proof.
  intros Hrs Hpg Hal Hsmall Hsz r0.
  assert (Hwf : region_wf r0).
  { eapply region_at_wf; [exact Hrs|exact Hpg|apply fresh_region_at; exact Hrs]. }
  pose proof Hpg as (Hpos & Hpal & Htop).
  assert (Hsz' : 0 <= size < USER_TOP) by (unfold sizeof_region_t in *; lia).
  destruct (is_pow2_spec _ Hal) as (k & Hk & ->).
  assert (Hs : round_up (page + sizeof_region_t) (2 ^ k) = page + sizeof_region_t).
  { apply round_up_aligned; [pose proof (pow2_bounds k Hk); lia|].
    apply small_pow2_divides_base; [lia|exact Hsmall|exact Hpal]. }
  rewrite region_has_space_spec, region_alloc_spec by assumption.
  unfold r0, region_init. cbn [free begin cap next]. rewrite Hs.
  assert (Hcmp : (page + sizeof_region_t + (rs - sizeof_region_t)
                    <? page + sizeof_region_t + size) = false)
    by (apply Z.ltb_ge; lia).
  rewrite Hcmp. split; reflexivity.
Qed.

(** X6. [arena_init], when [mmap] succeeds, returns an open arena with one
    region: [start] and [current] are the mapping, [region_count] is 1, the
    header occupies the first [sizeof(region_t)] bytes and the rest of the
    mapping is the free span; the rest of the store is untouched. The
    first request that fits ([size <= region_size - sizeof(region_t)],
    power-of-two [align <= sizeof(region_t)]) is served at the first byte
    behind the header, without growth. *)
Theorem arena_init_first_block h0 rs page :
  sizeof_region_t <= rs -> mmap_ok h0 rs page ->
  exists h a,
    arena_init page h0 rs = Ret (h, a) /\
    start a = page /\ current a = page /\
    region_size a = rs /\ region_count a = 1 /\
    h = <[page := region_init (rs - sizeof_region_t) (page + sizeof_region_t)]> h0 /\
    (forall page' size align,
       is_pow2 align -> align <= sizeof_region_t ->
       0 <= size <= rs - sizeof_region_t ->
       exists h',
         arena_alloc page' h a size align = Ret (page + sizeof_region_t, h', a) /\
         dom h' = dom h).
Proof.
  intros Hrs Hmm. pose proof (mmap_ok_page_ok _ _ _ Hmm) as Hpg.
  pose proof Hmm as (Hfresh & Hpos & _ & Htop).
  eexists _, _. split.
  { unfold arena_init. rewrite alloc_new_region_spec by assumption. reflexivity. }
  cbn [start current region_size region_count].
  split; [reflexivity|]. split; [reflexivity|]. split; [reflexivity|].
  split; [reflexivity|]. split; [reflexivity|].
  intros page' size align Hal Hsmall Hsz.
  destruct (fresh_region_first_block rs page size align Hrs Hpg Hal Hsmall Hsz)
    as (Hsp & Hra).
  set (a := {| start := page; current := page; region_size := rs;
               region_count := 1 |}).
  assert (Hopen : current a <> NULL) by (cbn; unfold NULL; lia).
  assert (Hmax : size <= wrap (region_size a - sizeof_region_t)).
  { cbn [a region_size]. rewrite wrap_small; [lia|].
    unfold sizeof_region_t in *. rewrite USER_TOP_eq in Htop. rewrite WORD_eq. lia. }
  eexists. split.
  - rewrite (arena_alloc_in_current page' _ a size align _ Hopen Hmax
               (lookup_insert_eq _ _ _) Hsp).
    rewrite Hra. reflexivity.
  - cbn [a current]. rewrite !dom_insert_L.
    apply set_eq. intros x. rewrite !elem_of_union, !elem_of_singleton.
    split; [intros [->|Hx]|]; auto.
Qed.

Lemma arena_init_first_block_witness :
  exists h a,
    arena_init 4096 ∅ 40 = Ret (h, a) /\
    start a = 4096 /\ current a = 4096 /\
    region_size a = 40 /\ region_count a = 1 /\
    h = <[4096 := region_init (40 - sizeof_region_t) (4096 + sizeof_region_t)]> ∅ /\
    (forall page' size align,
       is_pow2 align -> align <= sizeof_region_t ->
       0 <= size <= 40 - sizeof_region_t ->
       exists h',
         arena_alloc page' h a size align = Ret (4096 + sizeof_region_t, h', a) /\
         dom h' = dom h).
Proof.
  apply (arena_init_first_block ∅ 40 4096).
  - unfold sizeof_region_t. lia.
  - by_evaluation.
Defined.

(** ** Requests that cannot fail *)

(** X7. On a reachable arena, a request with
    [size <= region_size - sizeof(region_t)] and a power-of-two
    [align <= sizeof(region_t)] never gets [NULL]: it is served by the
    current region or, failing that, by the region that [mmap] adds. *)
Theorem arena_alloc_small_align_succeeds h a page size align :
  reachable h a -> is_pow2 align -> align <= sizeof_region_t ->
  0 <= size <= region_size a - sizeof_region_t ->
  mmap_ok h (region_size a) page ->
  exists p h' a',
    arena_alloc page h a size align = Ret (p, h', a') /\ p <> NULL.
Proof.
  intros Hre Hal Hsmall Hsz Hmm.
  destruct (reachable_inv _ _ Hre) as (l & Hinv).
  pose proof (arena_inv_max_payload _ _ _ Hinv) as Hmax.
  pose proof (arena_inv_region_size _ _ _ Hinv) as Hrs.
  destruct (arena_inv_current _ _ _ Hinv) as (_ & Hcn & cur & Hcur & _ & _ & Hwf).
  assert (Hsz' : 0 <= size < USER_TOP) by (unfold sizeof_region_t in *; lia).
  assert (Hmax' : size <= wrap (region_size a - sizeof_region_t))
    by (rewrite Hmax; lia).
  destruct (region_has_space cur size align) eqn:Hsp.
  - eexists _, _, _. split.
    + exact (arena_alloc_in_current page h a size align cur Hcn Hmax' Hcur Hsp).
    + pose proof Hsp as Hsp'.
      rewrite region_has_space_spec in Hsp' by assumption.
      apply negb_true_iff in Hsp'.
      rewrite region_alloc_spec by assumption. rewrite Hsp'. cbn.
      destruct Hwf as (Hb & Hbf & Hfc & Htop).
      destruct (align_up_user (free cur) align
                  ltac:(unfold user_address; lia) Hal) as (_ & [Hlo _] & _).
      unfold NULL. lia.
  - pose proof (mmap_ok_page_ok _ _ _ Hmm) as Hpg.
    pose proof Hmm as (Hfresh & Hpos & _ & Htop).
    destruct (fresh_region_first_block (region_size a) page size align
                ltac:(lia) Hpg Hal Hsmall Hsz) as (_ & Hra).
    pose proof (arena_alloc_grow page h a size align cur ltac:(lia) Hpos Htop
                  Hfresh Hcn Hmax' Hcur Hsp) as Heq.
    cbv zeta in Heq.
    eexists _, _, _. split; [exact Heq|].
    rewrite Hra. cbn. unfold NULL, sizeof_region_t. lia.
Qed.

Lemma arena_alloc_small_align_succeeds_witness :
  exists p h' a',
    arena_alloc 8192 test_heap_used test_arena 5 8 = Ret (p, h', a') /\ p <> NULL.
Proof.
  apply (arena_alloc_small_align_succeeds test_heap_used test_arena 8192 5 8).
  - exact test_arena_used_reachable.
  - exact is_pow2_8.
  - unfold sizeof_region_t. lia.
  - vm_compute. split; discriminate.
  - exact test_used_mmap_ok.
Defined.

(** ** What [arena_alloc] leaves alone *)

(** X8. A call of [arena_alloc] on a reachable arena never changes [start]
    or [region_size]; it either leaves the arena record as it is or makes
    the new mapping current and counts one region more. Every region
    other than the current one is left exactly as it is (an exhausted
    region is never visited again), and every region keeps its span while
    its cursor does not move back. The state it leaves is reachable. *)
Theorem arena_alloc_frame h a page size align p h' a' :
  reachable h a -> is_pow2 align -> 0 <= size < WORD ->
  mmap_ok h (region_size a) page ->
  arena_alloc page h a size align = Ret (p, h', a') ->
  start a' = start a /\ region_size a' = region_size a /\
  (a' = a \/ (current a' = page /\ region_count a' = region_count a + 1)) /\
  (forall q r, h !! q = Some r -> q <> current a -> h' !! q = Some r) /\
  (forall q r, h !! q = Some r ->
     exists r', h' !! q = Some r' /\ begin r' = begin r /\ cap r' = cap r /\
                free r <= free r') /\
  reachable h' a'.
Proof.
  intros Hre Hal Hsz Hmm Heq.
  assert (Hre' : reachable h' a')
    by (eapply reachable_alloc; eassumption).
  destruct (reachable_inv _ _ Hre) as (l & Hinv).
  pose proof (arena_inv_max_payload _ _ _ Hinv) as Hmax.
  pose proof (arena_inv_region_size _ _ _ Hinv) as Hrs.
  pose proof (arena_inv_count _ _ _ Hinv) as Hcount.
  destruct (arena_inv_current _ _ _ Hinv) as (_ & Hcn & cur & Hcur & _ & _ & Hwf).
  assert (Hsame : forall q r, h !! q = Some r ->
            exists r', h !! q = Some r' /\ begin r' = begin r /\
                       cap r' = cap r /\ free r <= free r').
  { intros q r Hr. exists r. split; [exact Hr|]. split; [reflexivity|].
    split; [reflexivity|lia]. }
  destruct (Z.lt_ge_cases (region_size a - sizeof_region_t) size) as [Hbig|Hfit].
  - rewrite arena_alloc_too_large in Heq by (rewrite Hmax; exact Hbig).
    inversion Heq; subst. repeat split; auto.
  - assert (Hsz' : 0 <= size < USER_TOP) by (unfold sizeof_region_t in *; lia).
    assert (Hmax' : size <= wrap (region_size a - sizeof_region_t))
      by (rewrite Hmax; exact Hfit).
    destruct (region_has_space cur size align) eqn:Hsp.
    + rewrite (arena_alloc_in_current page h a size align cur Hcn Hmax' Hcur Hsp)
        in Heq.
      destruct (region_alloc cur size align) as [p0 cur'] eqn:Hra.
      destruct (region_alloc_frame _ _ _ _ _ Hwf Hal Hsz' Hra) as (Hb & Hc & _ & Hf).
      cbn in Heq. inversion Heq; subst; clear Heq.
      split; [reflexivity|]. split; [reflexivity|]. split; [left; reflexivity|].
      split; [|split; [|exact Hre']].
      * intros q r Hr Hq. rewrite lookup_insert_ne by congruence. exact Hr.
      * intros q r Hr. destruct (decide (q = current a')) as [->|Hq].
        -- assert (r = cur) by congruence. subst r.
           exists cur'. rewrite lookup_insert_eq.
           split; [reflexivity|]. split; [exact Hb|]. split; [exact Hc|lia].
        -- exists r. rewrite lookup_insert_ne by congruence.
           split; [exact Hr|]. split; [reflexivity|]. split; [reflexivity|lia].
    + pose proof (mmap_ok_page_ok _ _ _ Hmm) as Hpg.
      pose proof Hmm as (Hfresh & Hpos & _ & Htop).
      pose proof (arena_alloc_grow page h a size align cur ltac:(lia) Hpos Htop
                    Hfresh Hcn Hmax' Hcur Hsp) as Heq'.
      cbv zeta in Heq'. rewrite Heq' in Heq. inversion Heq; subst; clear Heq Heq'.
      cbn [start current region_size region_count].
      split; [reflexivity|]. split; [reflexivity|].
      split; [right; split; [reflexivity|apply wrap_small; lia]|].
      split; [|split; [|exact Hre']].
      * intros q r Hr Hq.
        assert (q <> page) by congruence.
        rewrite !lookup_insert_ne by congruence. exact Hr.
      * intros q r Hr. assert (Hqp : q <> page) by congruence.
        destruct (decide (q = current a)) as [->|Hq].
        -- assert (r = cur) by congruence. subst r.
           exists (set_next cur page).
           rewrite lookup_insert_ne by congruence. rewrite lookup_insert_eq.
           split; [reflexivity|]. cbn. split; [reflexivity|]. split; [reflexivity|lia].
        -- exists r. rewrite !lookup_insert_ne by congruence.
           split; [exact Hr|]. split; [reflexivity|]. split; [reflexivity|lia].
Qed.

Lemma arena_alloc_frame_witness :
  exists p h' a',
    arena_alloc 8192 test_heap_used test_arena 5 8 = Ret (p, h', a') /\
    start a' = start test_arena /\ region_size a' = region_size test_arena /\
    (a' = test_arena \/
     (current a' = 8192 /\ region_count a' = region_count test_arena + 1)) /\
    reachable h' a'.
Proof.
  eexists _, _, _. split; [reflexivity|].
  destruct (arena_alloc_frame test_heap_used test_arena 8192 5 8 _ _ _
              test_arena_used_reachable is_pow2_8
              ltac:(rewrite WORD_eq; lia) test_used_mmap_ok eq_refl)
    as (H1 & H2 & H3 & _ & _ & H4).
  split; [exact H1|]. split; [exact H2|]. split; [exact H3|exact H4].
Defined.

(** ** The shape of the chain *)

(** X9. In every reachable arena the regions form one chain without
    repetition from [start] to [current]: [current] is the last region of
    the chain and its [next] is [NULL], [region_count] is the number of
    regions on the chain (at least 1), and the regions the arena owns are
    exactly those. *)
Theorem reachable_chain_shape h a :
  reachable h a ->
  exists l,
    chain h (start a) l /\ head l = Some (start a) /\
    last l = Some (current a) /\ NoDup l /\
    region_count a = Z.of_nat (length l) /\ 1 <= region_count a /\
    (forall q, owns h a q <-> q ∈ l) /\
    (exists cur, h !! current a = Some cur /\ next cur = NULL).
Proof.
  intros Hre. destruct (reachable_inv _ _ Hre) as (l & Hinv).
  pose proof (arena_inv_count _ _ _ Hinv) as (Hone & _).
  destruct (arena_inv_current _ _ _ Hinv) as (_ & _ & cur & Hcur & Hnext & _).
  pose proof Hinv as (_ & Hch & Hlast & Hnd & Hcnt & _).
  exists l. split; [exact Hch|]. split.
  { destruct l as [|x l]; [discriminate|]. cbn in Hch. destruct Hch as (-> & _).
    reflexivity. }
  split; [exact Hlast|]. split; [exact Hnd|]. split; [exact Hcnt|].
  split; [exact Hone|]. split.
  - intros q. split.
    + intros (l' & Hch' & Hq). rewrite <- (chain_functional _ _ _ _ Hch' Hch).
      exact Hq.
    + intros Hq. exists l. split; assumption.
  - exists cur. split; assumption.
Qed.

Lemma reachable_chain_shape_witness :
  exists l,
    chain test_heap_used (start test_arena) l /\ head l = Some (start test_arena) /\
    last l = Some (current test_arena) /\ NoDup l /\
    region_count test_arena = Z.of_nat (length l) /\ 1 <= region_count test_arena /\
    (forall q, owns test_heap_used test_arena q <-> q ∈ l) /\
    (exists cur, test_heap_used !! current test_arena = Some cur /\ next cur = NULL).
Proof.
  exact (reachable_chain_shape test_heap_used test_arena test_arena_used_reachable).
Defined.

(** ** When [mmap] is called *)

(** X10. On an open arena, for a request that passes the size test,
    [arena_alloc] calls [mmap] only when the current region lacks space:
    when it has space the result is the same whatever [mmap] would answer,
    and when it lacks space and [mmap] fails ([MAP_FAILED]) the assertion
    of [alloc_new_region] stops the process; the call does not return
    [NULL]. *)
Theorem arena_alloc_calls_mmap_only_to_grow h a size align cur :
  current a <> NULL -> size <= wrap (region_size a - sizeof_region_t) ->
  h !! current a = Some cur ->
  (region_has_space cur size align = true ->
   forall page page',
     arena_alloc page h a size align = arena_alloc page' h a size align) /\
  (region_has_space cur size align = false ->
   arena_alloc MAP_FAILED h a size align = Fault AssertionFailed).
Proof.
  intros Hopen Hsz Hcur. split.
  - intros Hsp page page'.
    rewrite !(arena_alloc_in_current _ h a size align cur Hopen Hsz Hcur Hsp).
    reflexivity.
  - intros Hsp. unfold arena_alloc.
    apply Z.eqb_neq in Hopen. rewrite Hopen.
    apply Z.ltb_ge in Hsz. rewrite Hsz.
    rewrite (load_Some _ _ _ Hcur). cbn. rewrite Hsp. reflexivity.
Qed.

Lemma arena_alloc_calls_mmap_only_to_grow_witness :
  arena_alloc MAP_FAILED test_heap_used test_arena 5 8 = Fault AssertionFailed.
Proof.
  refine (proj2 (arena_alloc_calls_mmap_only_to_grow test_heap_used test_arena
                   5 8 test_region_used _ _ eq_refl) eq_refl).
  - vm_compute. discriminate.
  - vm_compute. discriminate.
Defined.

(** ** What [arena_release] unmaps *)

Lemma release_chain_unique (h h1 h2 : gmap Z region_t) (l : list Z) :
  (forall q, q ∈ l -> h1 !! q = None) -> (forall q, q ∉ l -> h1 !! q = h !! q) ->
  (forall q, q ∈ l -> h2 !! q = None) -> (forall q, q ∉ l -> h2 !! q = h !! q) ->
  h1 = h2.
Proof.
  intros Hin1 Hout1 Hin2 Hout2. apply map_eq. intros q.
  destruct (decide (q ∈ l)) as [Hq|Hq].
  - rewrite Hin1, Hin2 by exact Hq. reflexivity.
  - rewrite Hout1, Hout2 by exact Hq. reflexivity.
Qed.

Lemma reachable_release h a :
  reachable h a ->
  exists l h',
    arena_inv h a l /\
    (forall fuel, (Z.to_nat (region_count a) <= fuel)%nat ->
       release_chain fuel h (start a) (region_size a) = Ret h') /\
    (forall q, q ∈ l -> h' !! q = None) /\
    (forall q, q ∉ l -> h' !! q = h !! q).
Proof.
  intros Hre. destruct (reachable_inv _ _ Hre) as (l & Hinv).
  pose proof Hinv as (_ & Hch & _ & Hnd & Hcnt & _).
  destruct (release_chain_spec (region_size a) l h (start a)
              (Z.to_nat (region_count a)) Hch Hnd ltac:(lia))
    as (h' & Hrel & Hin & Hout).
  exists l, h'. split; [exact Hinv|]. split; [|split; assumption].
  intros fuel Hfuel.
  destruct (release_chain_spec (region_size a) l h (start a) fuel Hch Hnd ltac:(lia))
    as (h2 & Hrel2 & Hin2 & Hout2).
  rewrite Hrel2. f_equal.
  eapply release_chain_unique; eassumption.
Qed.

(** X11. [arena_release] on a reachable arena unmaps exactly the regions
    the arena owns: with at least one unit of fuel per counted region the
    call returns, always the same state; no owned region is live afterwards
    and every other entry of the store (a region of another arena) is as
    it was. *)
Theorem arena_release_unmaps_owned_only h a :
  reachable h a ->
  exists h' a',
    (forall fuel, (Z.to_nat (region_count a) <= fuel)%nat ->
       arena_release fuel h a = Ret (h', a')) /\
    (forall q, owns h a q -> h' !! q = None) /\
    (forall q, ~ owns h a q -> h' !! q = h !! q).
Proof.
  intros Hre.
  destruct (reachable_release h a Hre) as (l & h' & Hinv & Hrel & Hin & Hout).
  pose proof Hinv as (_ & Hch & _).
  eexists h', _. split; [|split].
  - intros fuel Hfuel. unfold arena_release. rewrite (Hrel fuel Hfuel). reflexivity.
  - intros q (l' & Hch' & Hq). apply Hin.
    rewrite <- (chain_functional _ _ _ _ Hch' Hch). exact Hq.
  - intros q Hq. apply Hout. intros Hin'. apply Hq. exists l. split; assumption.
Qed.

Lemma arena_release_unmaps_owned_only_witness :
  exists h' a',
    (forall fuel, (Z.to_nat (region_count test_arena) <= fuel)%nat ->
       arena_release fuel test_heap_used test_arena = Ret (h', a')) /\
    (forall q, owns test_heap_used test_arena q -> h' !! q = None) /\
    (forall q, ~ owns test_heap_used test_arena q -> h' !! q = test_heap_used !! q).
Proof.
  exact (arena_release_unmaps_owned_only test_heap_used test_arena
           test_arena_used_reachable).
Defined.

(** X12. [arena_release] closes the record it is given, not its copies. If
    the record of a reachable arena is used again as it was before the
    release (a copy of the struct), both operations dereference a region
    that is no longer mapped: [arena_alloc], for any request that passes
    the size test, and a second [arena_release]. *)
Theorem stale_arena_record_reads_unmapped_region h a :
  reachable h a ->
  exists h' a',
    arena_release (Z.to_nat (region_count a)) h a = Ret (h', a') /\
    (forall page size align,
       size <= region_size a - sizeof_region_t ->
       arena_alloc page h' a size align = Fault InvalidPointer) /\
    (forall fuel, (0 < fuel)%nat ->
       arena_release fuel h' a = Fault InvalidPointer).
Proof.
  intros Hre.
  destruct (reachable_release h a Hre) as (l & h' & Hinv & Hrel & Hin & _).
  pose proof (arena_inv_max_payload _ _ _ Hinv) as Hmax.
  destruct (arena_inv_current _ _ _ Hinv) as (Hcin & Hcn & _).
  pose proof Hinv as (_ & Hch & _).
  assert (Hstart : start a ∈ l /\ start a <> NULL).
  { destruct l as [|x l]; [inversion Hcin|]. cbn in Hch.
    destruct Hch as (-> & Hx & _). split; [left|exact Hx]. }
  destruct Hstart as (Hsin & Hsn).
  eexists h', _. split; [|split].
  - unfold arena_release. rewrite (Hrel _ (Nat.le_refl _)). reflexivity.
  - intros page size align Hsz. unfold arena_alloc.
    apply Z.eqb_neq in Hcn. rewrite Hcn.
    assert (Hlt : (wrap (region_size a - sizeof_region_t) <? size) = false)
      by (apply Z.ltb_ge; rewrite Hmax; exact Hsz).
    rewrite Hlt. unfold load. rewrite (Hin _ Hcin). reflexivity.
  - intros fuel Hfuel. destruct fuel as [|fuel]; [lia|].
    unfold arena_release. cbn [release_chain].
    apply Z.eqb_neq in Hsn. rewrite Hsn.
    unfold load. rewrite (Hin _ Hsin). reflexivity.
Qed.

Lemma stale_arena_record_reads_unmapped_region_witness :
  exists h' a',
    arena_release (Z.to_nat (region_count test_arena)) test_heap_used test_arena
      = Ret (h', a') /\
    (forall page size align,
       size <= region_size test_arena - sizeof_region_t ->
       arena_alloc page h' test_arena size align = Fault InvalidPointer) /\
    (forall fuel, (0 < fuel)%nat ->
       arena_release fuel h' test_arena = Fault InvalidPointer).
Proof.
  exact (stale_arena_record_reads_unmapped_region test_heap_used test_arena
           test_arena_used_reachable).
Defined.

(** ** A region size below the header size *)

Lemma page_header_in_user_space rs page :
  0 < rs -> page_ok rs page -> page + sizeof_region_t <= USER_TOP.
Proof.
  intros Hrs (Hpos & Hal & Htop). unfold PAGE_SIZE in Hal.
  apply Z.mod_divide in Hal; [|lia]. destruct Hal as [k ->].
  unfold sizeof_region_t. rewrite USER_TOP_eq in *. lia.
Qed.

Lemma alloc_new_region_layout page h size :
  0 < page -> page + sizeof_region_t <= USER_TOP ->
  alloc_new_region page h size =
    Ret (<[page := region_init (wrap (size - sizeof_region_t))
                               (page + sizeof_region_t)]> h, page).
Proof.
  unfold sizeof_region_t. rewrite USER_TOP_eq. intros Hp Htop.
  unfold alloc_new_region, sizeof_region_t.
  assert (Hne : (page =? MAP_FAILED) = false).
  { apply Z.eqb_neq. change MAP_FAILED with 18446744073709551615. lia. }
  rewrite Hne.
  rewrite (wrap_small (page + 32)) by (rewrite WORD_eq; lia).
  replace (page + 32 - page) with 32 by lia.
  rewrite (wrap_small 32) by (rewrite WORD_eq; lia).
  reflexivity.
Qed.

Lemma wrap_negative z : - WORD <= z < 0 -> wrap z = z + WORD.
Proof.
  intros Hz. unfold wrap. symmetry.
  apply (Z.mod_unique z WORD (-1) (z + WORD)); [left; lia|lia].
Qed.

Lemma short_region_refuses rs b size align :
  0 < rs < sizeof_region_t -> sizeof_region_t < b <= USER_TOP ->
  is_pow2 align -> 0 <= size < USER_TOP ->
  let r := region_init (wrap (rs - sizeof_region_t)) b in
  region_has_space r size align = false /\ region_alloc r size align = (NULL, r).
Proof.
  intros Hrs Hb Hal Hsz r. unfold sizeof_region_t in *.
  destruct (align_up_user b align ltac:(unfold user_address; lia) Hal)
    as (Hau & [Hlo Hhi] & _).
  rewrite USER_TOP_eq in *.
  assert (Hend : wrap (b + wrap (rs - 32)) = b + rs - 32).
  { unfold wrap. rewrite Zplus_mod_idemp_r.
    replace (b + (rs - 32)) with (b + rs - 32) by lia.
    apply Z.mod_small. rewrite WORD_eq. lia. }
  assert (Hcmp : (wrap (align_up b align + size) >? wrap (b + wrap (rs - 32))) = true).
  { rewrite Hend, Hau. rewrite wrap_small by (rewrite WORD_eq; lia).
    apply Z.gtb_lt. lia. }
  unfold region_has_space, region_alloc, r, region_init. cbn [free begin cap].
  rewrite Hcmp. split; reflexivity.
Qed.

(** X13. When [arena_init] is given a region size below
    [sizeof(region_t)], the subtraction of line 94 wraps and so does the
    size test of line 116: the arena is created, but it never serves a
    request. The first [arena_alloc], for any size below [2^63], passes the
    size test, finds no space, maps a second region, counts it, and
    returns [NULL]. *)
Theorem arena_with_short_regions_never_serves h0 rs page0 :
  0 < rs < sizeof_region_t -> mmap_ok h0 rs page0 ->
  exists h a,
    arena_init page0 h0 rs = Ret (h, a) /\ region_count a = 1 /\
    forall page size align,
      is_pow2 align -> 0 <= size < USER_TOP -> mmap_ok h rs page ->
      exists h' a',
        arena_alloc page h a size align = Ret (NULL, h', a') /\
        region_count a' = 2 /\ current a' = page /\ is_Some (h' !! page).
Proof.
  intros Hrs Hmm. pose proof (mmap_ok_page_ok _ _ _ Hmm) as Hpg.
  pose proof (page_header_in_user_space rs page0 ltac:(lia) Hpg) as Hhdr.
  pose proof Hmm as (Hfresh0 & Hpos0 & _ & _).
  set (cur := region_init (wrap (rs - sizeof_region_t)) (page0 + sizeof_region_t)).
  eexists _, _. split.
  { unfold arena_init. rewrite alloc_new_region_layout by assumption. reflexivity. }
  split; [reflexivity|].
  intros page size align Hal Hsz Hmm'.
  pose proof (mmap_ok_page_ok _ _ _ Hmm') as Hpg'.
  pose proof (page_header_in_user_space rs page ltac:(lia) Hpg') as Hhdr'.
  pose proof Hmm' as (Hfresh & Hpos & _ & _).
  fold cur in Hfresh |- *.
  assert (Hne : page <> page0).
  { intros ->. rewrite lookup_insert_eq in Hfresh. discriminate. }
  destruct (short_region_refuses rs (page0 + sizeof_region_t) size align Hrs
              ltac:(unfold sizeof_region_t in *; lia) Hal Hsz) as (Hsp & _).
  destruct (short_region_refuses rs (page + sizeof_region_t) size align Hrs
              ltac:(unfold sizeof_region_t in *; lia) Hal Hsz) as (_ & Hra).
  fold cur in Hsp.
  set (r0 := region_init (wrap (rs - sizeof_region_t)) (page + sizeof_region_t)) in *.
  eexists _, _. split; [|split; [|split]].
  - unfold arena_alloc. cbn [current region_size region_count start].
    assert (Hopen : (page0 =? NULL) = false) by (apply Z.eqb_neq; unfold NULL; lia).
    rewrite Hopen.
    assert (Hlt : (wrap (rs - sizeof_region_t) <? size) = false).
    { apply Z.ltb_ge. rewrite wrap_negative.
      - unfold sizeof_region_t in *. rewrite USER_TOP_eq in Hsz.
        rewrite WORD_eq. lia.
      - unfold sizeof_region_t in *. rewrite WORD_eq. lia. }
    rewrite Hlt.
    rewrite (load_Some _ page0 cur) by apply lookup_insert_eq. cbn. rewrite Hsp.
    rewrite alloc_new_region_layout by assumption. cbn. fold r0.
    rewrite (load_Some _ page0 cur)
      by (rewrite lookup_insert_ne by exact Hne; apply lookup_insert_eq). cbn.
    rewrite (load_Some _ page r0)
      by (rewrite lookup_insert_ne by congruence; apply lookup_insert_eq). cbn.
    rewrite Hra. reflexivity.
  - reflexivity.
  - reflexivity.
  - rewrite lookup_insert_eq. eexists. reflexivity.
Qed.

Lemma arena_with_short_regions_never_serves_witness :
  exists h a,
    arena_init 4096 ∅ 8 = Ret (h, a) /\ region_count a = 1 /\
    forall page size align,
      is_pow2 align -> 0 <= size < USER_TOP -> mmap_ok h 8 page ->
      exists h' a',
        arena_alloc page h a size align = Ret (NULL, h', a') /\
        region_count a' = 2 /\ current a' = page /\ is_Some (h' !! page).
Proof.
  apply (arena_with_short_regions_never_serves ∅ 8 4096).
  - unfold sizeof_region_t. lia.
  - by_evaluation.
Defined.

(** ** Blocks of a whole run *)

Lemma overlaps_point a s b t :
  overlaps a s b t = true -> exists x, a <= x < a + s /\ b <= x < b + t.
Proof.
  unfold overlaps. intros H.
  apply andb_prop in H as [H H4]. apply andb_prop in H as [H H3].
  apply andb_prop in H as [H1 H2].
  apply Z.ltb_lt in H1, H2, H3, H4.
  exists (Z.max a b). lia.
Qed.

Lemma arena_alloc_returns h a l page size align :
  arena_inv h a l -> is_pow2 align -> 0 <= size < WORD ->
  mmap_ok h (region_size a) page ->
  exists p h1 a1, arena_alloc page h a size align = Ret (p, h1, a1).
Proof.
  intros Hinv Hal Hsz Hmm.
  pose proof (arena_inv_max_payload _ _ _ Hinv) as Hmax.
  pose proof (arena_inv_region_size _ _ _ Hinv) as Hrs.
  destruct (arena_inv_current _ _ _ Hinv) as (_ & Hcn & cur & Hcur & _).
  destruct (Z.lt_ge_cases (region_size a - sizeof_region_t) size) as [Hbig|Hfit].
  - eexists _, _, _. apply arena_alloc_too_large. rewrite Hmax. exact Hbig.
  - assert (Hmax' : size <= wrap (region_size a - sizeof_region_t))
      by (rewrite Hmax; exact Hfit).
    destruct (region_has_space cur size align) eqn:Hsp.
    + eexists _, _, _.
      exact (arena_alloc_in_current page h a size align cur Hcn Hmax' Hcur Hsp).
    + destruct Hmm as (Hfresh & Hpos & _ & Htop).
      pose proof (arena_alloc_grow page h a size align cur ltac:(lia) Hpos Htop
                    Hfresh Hcn Hmax' Hcur Hsp) as Heq.
      cbv zeta in Heq. eexists _, _, _. exact Heq.
Qed.

Lemma arena_step_used h a l page size align p h1 a1 :
  arena_inv h a l -> pages_apart (region_size a) l ->
  is_pow2 align -> 0 <= size < WORD ->
  mmap_fresh h (region_size a) page ->
  arena_alloc page h a size align = Ret (p, h1, a1) ->
  exists l1,
    arena_inv h1 a1 l1 /\ pages_apart (region_size a1) l1 /\
    (forall x, used h l x -> used h1 l1 x) /\
    (p <> NULL -> forall x, p <= x < p + size ->
       ~ used h l x /\ used h1 l1 x).
Proof.
  intros Hinv Hapart Hal Hsz (Hmm & Hfar) Heq.
  pose proof (arena_inv_max_payload _ _ _ Hinv) as Hmax.
  pose proof (arena_inv_region_size _ _ _ Hinv) as Hrs.
  destruct (arena_inv_current _ _ _ Hinv)
    as (Hcin & Hcn & cur & Hcur & _ & Hcat & Hwf).
  assert (Hspan : forall q r, q ∈ l -> h !! q = Some r ->
            begin r = q + sizeof_region_t /\ free r <= q + region_size a).
  { intros q r Hq Hr.
    destruct (arena_inv_member _ _ _ Hinv _ Hq) as (_ & r0 & Hr0 & Hat & _).
    assert (r0 = r) by congruence. subst r0. unfold region_at in Hat. lia. }
  destruct (Z.lt_ge_cases (region_size a - sizeof_region_t) size) as [Hbig|Hfit].
  - rewrite arena_alloc_too_large in Heq by (rewrite Hmax; exact Hbig).
    inversion Heq; subst. exists l.
    split; [exact Hinv|]. split; [exact Hapart|]. split; [auto|].
    intros Hp. contradiction.
  - assert (Hsz' : 0 <= size < USER_TOP) by (unfold sizeof_region_t in *; lia).
    assert (Hmax' : size <= wrap (region_size a - sizeof_region_t))
      by (rewrite Hmax; exact Hfit).
    destruct (region_has_space cur size align) eqn:Hsp.
    + rewrite (arena_alloc_in_current page h a size align cur Hcn Hmax' Hcur Hsp)
        in Heq.
      destruct (region_alloc cur size align) as [p0 cur'] eqn:Hra.
      destruct (region_alloc_frame _ _ _ _ _ Hwf Hal Hsz' Hra) as (Hb & Hc & Hn & Hf).
      cbn in Heq. inversion Heq; subst; clear Heq.
      exists l. split; [eapply arena_inv_update_current; eassumption|].
      split; [exact Hapart|].
      assert (Hkeep : forall x, used h l x -> used (<[current a1 := cur']> h) l x).
      { intros x (q & r & Hq & Hr & Hx).
        destruct (decide (q = current a1)) as [->|Hqc].
        - assert (r = cur) by congruence. subst r.
          exists (current a1), cur'. rewrite lookup_insert_eq.
          split; [exact Hq|]. split; [reflexivity|]. lia.
        - exists q, r. rewrite lookup_insert_ne by congruence.
          split; [exact Hq|]. split; [exact Hr|exact Hx]. }
      split; [exact Hkeep|].
      intros Hp x Hx.
      destruct (region_alloc_success _ _ _ _ _ Hwf Hal Hsz' Hra Hp)
        as (_ & Hlo & Hend & _ & _ & _ & Hwf').
      destruct (Hspan _ _ Hcin Hcur) as (Hcb & Hcf).
      destruct Hwf as (_ & Hbf & _). destruct Hwf' as (_ & _ & Hfc' & _).
      unfold region_at in Hcat.
      split.
      * intros (q & r & Hq & Hr & Hxq).
        destruct (decide (q = current a1)) as [->|Hqc].
        -- assert (r = cur) by congruence. subst r. lia.
        -- destruct (Hspan _ _ Hq Hr) as (Hqb & Hqf).
           destruct (Hapart q (current a1) Hq Hcin Hqc);
             unfold sizeof_region_t in *; lia.
      * exists (current a1), cur'. rewrite lookup_insert_eq.
        split; [exact Hcin|]. split; [reflexivity|]. lia.
    + pose proof (mmap_ok_page_ok _ _ _ Hmm) as Hpg.
      pose proof Hmm as (Hfresh & Hpos & _ & Htop).
      pose proof (arena_inv_fresh _ _ _ Hinv _ Hfresh) as Hnotin.
      pose proof (arena_alloc_grow page h a size align cur ltac:(lia) Hpos Htop
                    Hfresh Hcn Hmax' Hcur Hsp) as Heq'.
      cbv zeta in Heq'. rewrite Heq' in Heq. clear Heq'.
      destruct (fresh_region_alloc (region_size a) page size align
                  ltac:(lia) Hpg Hal Hsz') as (Hwf0 & Hat & Hnn).
      set (r0 := region_init (region_size a - sizeof_region_t)
                             (page + sizeof_region_t)) in *.
      destruct (region_alloc r0 size align) as [p0 rn] eqn:Hra.
      cbn [fst snd] in Heq, Hat, Hnn. inversion Heq; subst; clear Heq.
      cbn [region_size].
      assert (Hfar' : forall q, q ∈ l ->
                page + region_size a <= q \/ q + region_size a <= page).
      { intros q Hq.
        destruct (arena_inv_member _ _ _ Hinv _ Hq) as (_ & r & Hr & Hatq & _).
        destruct (Hfar q r Hr) as [H|H]; [left; exact H|right].
        unfold region_at in Hatq. lia. }
      exists (l ++ [page]).
      split; [eapply arena_inv_grow; eassumption|].
      split.
      { intros q1 q2 Hq1 Hq2 Hne.
        apply elem_of_app in Hq1 as [Hq1|Hq1]; apply elem_of_app in Hq2 as [Hq2|Hq2];
          try (apply list_elem_of_singleton in Hq1; subst q1);
          try (apply list_elem_of_singleton in Hq2; subst q2).
        - apply Hapart; assumption.
        - destruct (Hfar' _ Hq1); lia.
        - destruct (Hfar' _ Hq2); lia.
        - contradiction. }
      assert (Hkeep : forall x, used h l x ->
                used (<[page := rn]> (<[current a := set_next cur page]>
                        (<[page := r0]> h))) (l ++ [page]) x).
      { intros x (q & r & Hq & Hr & Hx).
        assert (Hqp : q <> page) by congruence.
        destruct (decide (q = current a)) as [->|Hqc].
        - assert (r = cur) by congruence. subst r.
          exists (current a), (set_next cur page).
          rewrite lookup_insert_ne by congruence. rewrite lookup_insert_eq.
          split; [apply elem_of_app; left; exact Hq|].
          split; [reflexivity|exact Hx].
        - exists q, r. rewrite !lookup_insert_ne by congruence.
          split; [apply elem_of_app; left; exact Hq|].
          split; [exact Hr|exact Hx]. }
      split; [exact Hkeep|].
      intros Hp x Hx.
      destruct (region_alloc_success _ _ _ _ _ Hwf0 Hal Hsz' Hra Hp)
        as (_ & Hlo & Hend & Hb & _ & _ & Hwf').
      destruct Hwf' as (_ & _ & Hfc' & _).
      unfold region_at in Hat.
      assert (Hfree0 : free r0 = page + sizeof_region_t) by reflexivity.
      split.
      * intros (q & r & Hq & Hr & Hxq).
        destruct (Hspan _ _ Hq Hr) as (Hqb & Hqf).
        destruct (Hfar' _ Hq); unfold sizeof_region_t in *; lia.
      * exists page, rn. rewrite lookup_insert_eq.
        split; [apply elem_of_app; right; apply list_elem_of_singleton; reflexivity|].
        split; [reflexivity|]. lia.
Qed.

Lemma arena_run_disjoint reqs : forall h a l,
  arena_inv h a l -> pages_apart (region_size a) l -> run_ok reqs h a ->
  exists blocks h' a' l',
    arena_run reqs h a = Ret (blocks, h', a') /\
    arena_inv h' a' l' /\
    pairwise_disjoint blocks /\
    (forall x, used h l x -> used h' l' x) /\
    (forall b x, b ∈ blocks -> b.1 <= x < b.1 + b.2 ->
       ~ used h l x /\ used h' l' x).
Proof.
  induction reqs as [|[[page size] align] reqs IH]; intros h a l Hinv Hapart Hok.
  - exists [], h, a, l. split; [reflexivity|]. split; [exact Hinv|].
    split; [intros i j bi bj _ Hi; destruct i; discriminate|].
    split; [auto|]. intros b x Hb. inversion Hb.
  - cbn [run_ok] in Hok. destruct Hok as (Hal & Hsz & Hmm & Hok).
    destruct (arena_alloc_returns h a l page size align Hinv Hal Hsz (proj1 Hmm))
      as (p & h1 & a1 & Heq).
    rewrite Heq in Hok.
    destruct (arena_step_used _ _ _ _ _ _ _ _ _ Hinv Hapart Hal Hsz Hmm Heq)
      as (l1 & Hinv1 & Hapart1 & Hkeep1 & Hnew1).
    destruct (IH h1 a1 l1 Hinv1 Hapart1 Hok)
      as (blocks & h' & a' & l' & Hrun & Hinv' & Hdisj & Hkeep & Hnew).
    eexists _, h', a', l'. split.
    { cbn [arena_run]. rewrite Heq. cbn. rewrite Hrun. reflexivity. }
    split; [exact Hinv'|].
    destruct (p =? NULL) eqn:Hp.
    + split; [exact Hdisj|]. split; [auto|].
      intros b x Hb Hx. destruct (Hnew b x Hb Hx) as (Hn & Hu). auto.
    + apply Z.eqb_neq in Hp. specialize (Hnew1 Hp).
      split; [|split; [auto|]].
      * intros i j bi bj Hij Hi Hj.
        destruct j as [|j]; [lia|]. cbn in Hj.
        destruct i as [|i]; cbn in Hi.
        -- inversion Hi; subst bi; clear Hi. cbn [fst snd].
           destruct (overlaps p size bj.1 bj.2) eqn:Hov; [|reflexivity].
           exfalso. destruct (overlaps_point _ _ _ _ Hov) as (x & Hx1 & Hx2).
           apply (Hnew bj x); [eapply list_elem_of_lookup_2; exact Hj|exact Hx2|].
           apply Hnew1. exact Hx1.
        -- eapply Hdisj; [|exact Hi|exact Hj]. lia.
      * intros b x Hb Hx. apply elem_of_cons in Hb as [->|Hb].
        -- cbn [fst snd] in Hx. destruct (Hnew1 x Hx) as (Hn & Hu). auto.
        -- destruct (Hnew b x Hb Hx) as (Hn & Hu). auto.
Qed.

(** X14. Over the whole life of an arena, from [arena_init] with a region
    size of at least [sizeof(region_t)] through any number of [arena_alloc]
    calls (power-of-two alignments, [mmap]
    answering with mappings apart from the live ones), every call returns,
    and the blocks of the successful calls are pairwise disjoint, also
    across regions. At the end each address of each block lies in a region
    the arena owns, below that region's cursor: no block is ever handed out
    twice or given up. *)
Theorem arena_blocks_never_overlap h0 rs page0 reqs :
  sizeof_region_t <= rs -> mmap_ok h0 rs page0 ->
  exists h a,
    arena_init page0 h0 rs = Ret (h, a) /\
    (run_ok reqs h a ->
     exists blocks h' a',
       arena_run reqs h a = Ret (blocks, h', a') /\
       pairwise_disjoint blocks /\
       (forall b x, b ∈ blocks -> b.1 <= x < b.1 + b.2 ->
          exists q r, owns h' a' q /\ h' !! q = Some r /\ begin r <= x < free r)).
Proof.
  intros Hrs Hmm.
  assert (Hinit : exists h a, arena_init page0 h0 rs = Ret (h, a)).
  { destruct Hmm as (_ & Hpos & _ & Htop). unfold arena_init.
    rewrite alloc_new_region_spec by assumption. eexists _, _. reflexivity. }
  destruct Hinit as (h & a & Hinit). exists h, a. split; [exact Hinit|].
  intros Hok.
  pose proof (arena_init_inv _ _ _ _ _ Hrs Hmm Hinit) as Hinv.
  assert (Hapart : pages_apart (region_size a) [page0]).
  { intros q1 q2 Hq1 Hq2 Hne.
    apply list_elem_of_singleton in Hq1, Hq2. congruence. }
  destruct (arena_run_disjoint reqs h a [page0] Hinv Hapart Hok)
    as (blocks & h' & a' & l' & Hrun & Hinv' & Hdisj & _ & Hnew).
  exists blocks, h', a'. split; [exact Hrun|]. split; [exact Hdisj|].
  intros b x Hb Hx. destruct (Hnew b x Hb Hx) as (_ & q & r & Hq & Hr & Hxr).
  exists q, r. split; [|split; assumption].
  exists l'. split; [apply Hinv'|exact Hq].
Qed.

Lemma arena_blocks_never_overlap_witness :
  exists h a,
    arena_init 4096 ∅ 40 = Ret (h, a) /\
    exists blocks h' a',
      arena_run [(8192, 5, 8); (8192, 5, 8); (12288, 9, 16); (12288, 3, 1)] h a
        = Ret (blocks, h', a') /\
      blocks = [(4128, 5); (8224, 5); (8229, 3)] /\
      pairwise_disjoint blocks.
Proof.
  destruct (arena_blocks_never_overlap ∅ 40 4096
              [(8192, 5, 8); (8192, 5, 8); (12288, 9, 16); (12288, 3, 1)])
    as (h & a & Hinit & Hrun).
  - unfold sizeof_region_t. lia.
  - by_evaluation.
  - exists h, a. split; [exact Hinit|].
    assert (Hha : Ret (h, a) = Ret (test_heap, test_arena))
      by (rewrite <- Hinit; reflexivity).
    injection Hha as -> ->.
    destruct Hrun as (blocks & h' & a' & Heq & Hdisj & _).
    + cbn [run_ok]. repeat (split; [by_evaluation|]).
      vm_compute arena_alloc. cbn [run_ok].
      repeat (split; [by_evaluation|]).
      vm_compute arena_alloc. cbn [run_ok].
      repeat (split; [by_evaluation|]).
      vm_compute arena_alloc. cbn [run_ok].
      repeat (split; [by_evaluation|]).
      vm_compute arena_alloc. exact I.
    + exists blocks, h', a'. split; [exact Heq|]. split; [|exact Hdisj].
      assert (Hb : Ret (blocks, h', a') =
                   arena_run [(8192, 5, 8); (8192, 5, 8); (12288, 9, 16); (12288, 3, 1)]
                     test_heap test_arena) by (symmetry; exact Heq).
      vm_compute in Hb. injection Hb as -> _ _. reflexivity.
Defined.

(** ** The test driver *)

Lemma bind_Ret {A B} (x : A) (f : A -> result B) : (Ret x ≫= f) = f x.
Proof. reflexivity. Qed.

(** X15. The assertions of [test_region] hold wherever the ten bytes of
    [buf] are in user memory: the second block starts 4 bytes after the
    first, the third request gets [NULL], and the test returns. *)
Theorem test_region_passes buf :
  0 < buf -> buf + 10 <= USER_TOP -> Tests.test_region buf = Ret tt.
Proof.
  intros Hpos Htop.
  assert (Hwf0 : region_wf (region_init 10 buf)) by (unfold region_wf; cbn; lia).
  destruct (align_up_user buf 4 ltac:(unfold user_address; rewrite USER_TOP_eq in *; lia)
              is_pow2_4) as (_ & [Hlo _] & Hmod).
  pose proof (round_up_bounds buf 4 ltac:(lia)) as Hhi.
  set (s := round_up buf 4) in *.
  assert (Hsz : 0 <= 3 < USER_TOP) by (rewrite USER_TOP_eq; lia).
  set (r1 := {| next := NULL; cap := 10; free := s + 3; begin := buf |}).
  set (r2 := {| next := NULL; cap := 10; free := s + 4 + 3; begin := buf |}).
  assert (H1 : region_alloc (region_init 10 buf) 3 4 = (s, r1)).
  { rewrite region_alloc_spec by (try assumption; exact is_pow2_4).
    cbn [free begin cap next region_init]. fold s.
    assert (Hc : (buf + 10 <? s + 3) = false) by (apply Z.ltb_ge; lia).
    rewrite Hc. reflexivity. }
  assert (Hwf1 : region_wf r1) by (unfold region_wf, r1; cbn; lia).
  assert (H2 : region_alloc r1 3 4 = (s + 4, r2)).
  { rewrite region_alloc_spec by (try assumption; exact is_pow2_4).
    cbn [free begin cap next r1].
    rewrite (round_up_next s 3 4) by (try assumption; lia).
    assert (Hc : (buf + 10 <? s + 4 + 3) = false) by (apply Z.ltb_ge; lia).
    rewrite Hc. reflexivity. }
  assert (Hwf2 : region_wf r2) by (unfold region_wf, r2; cbn; lia).
  assert (H3 : region_alloc r2 3 4 = (NULL, r2)).
  { rewrite region_alloc_spec by (try assumption; exact is_pow2_4).
    cbn [free begin cap next r2].
    assert (Hm4 : (s + 4) mod 4 = 0).
    { replace (s + 4) with (s + 1 * 4) by lia. rewrite Z.mod_add by lia. exact Hmod. }
    rewrite (round_up_next (s + 4) 3 4) by (try assumption; lia).
    assert (Hc : (buf + 10 <? s + 4 + 4 + 3) = true) by (apply Z.ltb_lt; lia).
    rewrite Hc. reflexivity. }
  unfold Tests.test_region. rewrite H1. cbv beta iota. rewrite H2. cbv beta iota.
  rewrite (wrap_small (s + 4)) by (rewrite USER_TOP_eq in *; rewrite WORD_eq; lia).
  rewrite Z.eqb_refl. change (assert true) with (Ret tt). rewrite bind_Ret.
  rewrite H3. reflexivity.
Qed.

Lemma test_region_passes_witness : Tests.test_region test_buf = Ret tt.
Proof.
  apply (test_region_passes test_buf); by_evaluation.
Defined.

(** X16. The assertions of [test_arena] hold whatever addresses [mmap]
    gives to its two regions (two distinct fresh mappings), given fuel for
    the two iterations of the release loop: [region_count] is 1, then 2,
    stays 2 after the refused request, is 0 after the release, the refused
    and the late request get [NULL], and the test returns with the store of
    regions as it found it (both mappings are unmapped). *)
Theorem test_arena_passes h0 page0 page1 page2 page3 page4 fuel :
  mmap_ok h0 40 page0 -> mmap_ok h0 40 page2 -> page2 <> page0 ->
  (2 <= fuel)%nat ->
  Tests.test_arena (page0, page1, page2, page3, page4) fuel h0 = Ret h0.
Proof.
  intros Hmm0 Hmm2 Hne Hfuel.
  pose proof (mmap_ok_page_ok _ _ _ Hmm0) as Hpg0.
  pose proof (mmap_ok_page_ok _ _ _ Hmm2) as Hpg2.
  pose proof Hmm0 as (Hfresh0 & Hpos0 & Hal0 & Htop0).
  pose proof Hmm2 as (Hfresh2 & Hpos2 & Hal2 & Htop2).
  assert (Hrs : sizeof_region_t <= 40) by (unfold sizeof_region_t; lia).
  assert (H5 : 0 <= 5 <= 40 - sizeof_region_t) by (unfold sizeof_region_t; lia).
  assert (H5' : 0 <= 5 < USER_TOP) by (rewrite USER_TOP_eq; lia).
  (* arena_init *)
  set (c0 := region_init (40 - sizeof_region_t) (page0 + sizeof_region_t)).
  set (h1 := <[page0 := c0]> h0).
  set (a1 := {| start := page0; current := page0; region_size := 40;
                region_count := 1 |}).
  assert (S1 : arena_init page0 h0 40 = Ret (h1, a1)).
  { unfold arena_init. rewrite alloc_new_region_spec by assumption. reflexivity. }
  assert (Hopen1 : current a1 <> NULL) by (cbn; unfold NULL; lia).
  assert (Hmax5 : 5 <= wrap (region_size a1 - sizeof_region_t))
    by (vm_compute; discriminate).
  (* the first request is served by the first region *)
  destruct (fresh_region_first_block 40 page0 5 8 Hrs Hpg0 is_pow2_8
              ltac:(unfold sizeof_region_t; lia) H5) as (Hsp1 & Hra1).
  fold c0 in Hsp1, Hra1.
  set (c1 := {| next := NULL; cap := 40 - sizeof_region_t;
                free := page0 + sizeof_region_t + 5;
                begin := page0 + sizeof_region_t |}) in *.
  set (h2 := <[page0 := c1]> h1).
  assert (S2 : arena_alloc page1 h1 a1 5 8 = Ret (page0 + sizeof_region_t, h2, a1)).
  { rewrite (arena_alloc_in_current page1 h1 a1 5 8 c0 Hopen1 Hmax5
               (lookup_insert_eq _ _ _) Hsp1).
    rewrite Hra1. reflexivity. }
  (* the second request does not fit and is served by a second region *)
  assert (Hwf1 : region_wf c1).
  { destruct Hpg0 as (? & ? & ?). unfold region_wf, c1, sizeof_region_t in *; cbn. lia. }
  assert (Hbase : (page0 + sizeof_region_t) mod 8 = 0).
  { apply (small_pow2_divides_base page0 3); [lia|unfold sizeof_region_t; lia|exact Hal0]. }
  assert (Hsp2 : region_has_space c1 5 8 = false).
  { rewrite region_has_space_spec by (try assumption; exact is_pow2_8).
    cbn [free begin cap c1].
    rewrite (round_up_next (page0 + sizeof_region_t) 5 8) by (try assumption; lia).
    apply negb_false_iff, Z.ltb_lt. unfold sizeof_region_t. lia. }
  assert (Hcur2 : h2 !! current a1 = Some c1) by apply lookup_insert_eq.
  assert (Hfresh2' : h2 !! page2 = None).
  { unfold h2, h1. rewrite !lookup_insert_ne by congruence. exact Hfresh2. }
  pose proof (arena_alloc_grow page2 h2 a1 5 8 c1 Hrs Hpos2 Htop2 Hfresh2'
                Hopen1 Hmax5 Hcur2 Hsp2) as S3.
  cbv zeta in S3. cbn [region_size start current region_count a1] in S3.
  destruct (fresh_region_first_block 40 page2 5 8 Hrs Hpg2 is_pow2_8
              ltac:(unfold sizeof_region_t; lia) H5) as (_ & Hra2).
  rewrite Hra2 in S3. cbn [fst snd] in S3.
  change (wrap (1 + 1)) with 2 in S3.
  set (d0 := region_init (40 - sizeof_region_t) (page2 + sizeof_region_t)) in *.
  set (d1 := {| next := NULL; cap := 40 - sizeof_region_t;
                free := page2 + sizeof_region_t + 5;
                begin := page2 + sizeof_region_t |}) in *.
  set (h3 := <[page2 := d1]> (<[page0 := set_next c1 page2]> (<[page2 := d0]> h2))) in *.
  set (a2 := {| start := page0; current := page2; region_size := 40;
                region_count := 2 |}) in *.
  (* the request of 9 bytes is refused *)
  assert (S4 : arena_alloc page3 h3 a2 9 16 = Ret (NULL, h3, a2)).
  { apply arena_alloc_too_large. vm_compute. reflexivity. }
  (* release *)
  assert (Hch : chain h3 (start a2) [page0; page2]).
  { cbn. split; [reflexivity|]. split; [unfold NULL; lia|].
    exists (set_next c1 page2). split.
    - unfold h3. rewrite lookup_insert_ne by congruence. apply lookup_insert_eq.
    - cbn. split; [reflexivity|]. split; [unfold NULL; lia|].
      exists d1. split; [apply lookup_insert_eq|reflexivity]. }
  assert (Hnd : NoDup [page0; page2]).
  { apply NoDup_cons. split; [|apply NoDup_singleton].
    intros Hin. apply list_elem_of_singleton in Hin. congruence. }
  destruct (release_chain_spec (region_size a2) [page0; page2] h3 (start a2) fuel
              Hch Hnd Hfuel) as (h4 & Hrel & Hin & Hout).
  assert (Hh4 : h4 = h0).
  { apply map_eq. intros q.
    destruct (decide (q = page0)) as [->|Hq0];
      [rewrite Hin by (left); symmetry; exact Hfresh0|].
    destruct (decide (q = page2)) as [->|Hq2];
      [rewrite Hin by (right; left); symmetry; exact Hfresh2|].
    rewrite Hout.
    - unfold h3, h2, h1. rewrite !lookup_insert_ne by congruence. reflexivity.
    - intros Hq. apply elem_of_cons in Hq as [->|Hq]; [congruence|].
      apply list_elem_of_singleton in Hq. congruence. }
  subst h4.
  assert (S5 : arena_release fuel h3 a2 =
               Ret (h0, {| start := NULL; current := NULL; region_size := 40;
                           region_count := 0 |})).
  { unfold arena_release. rewrite Hrel. reflexivity. }
  unfold Tests.test_arena.
  change (wrap (sizeof_region_t + 8)) with 40.
  rewrite S1, bind_Ret. cbv beta iota.
  rewrite S2, bind_Ret. cbv beta iota.
  change (assert (region_count a1 =? 1)) with (Ret tt). rewrite bind_Ret.
  rewrite S3, bind_Ret. cbv beta iota. fold a2.
  change (assert (region_count a2 =? 2)) with (Ret tt). rewrite bind_Ret.
  rewrite S4, bind_Ret. cbv beta iota.
  change (assert (NULL =? NULL)) with (Ret tt). rewrite bind_Ret.
  change (assert (region_count a2 =? 2)) with (Ret tt). rewrite bind_Ret.
  rewrite S5, bind_Ret. cbv beta iota.
  reflexivity.
Qed.

Lemma test_arena_passes_witness :
  Tests.test_arena (4096, 0, 8192, 0, 0) 2 ∅ = Ret ∅.
Proof.
  apply (test_arena_passes ∅ 4096 0 8192 0 0 2).
  - by_evaluation.
  - by_evaluation.
  - discriminate.
  - lia.
Defined.

(** ** The bound of a region *)

(** X17. The bound test is exact. On a well-formed region whose aligned
    start [s = round_up(free, align)] is still inside the span, the request
    for all the bytes from [s] to the end of the span succeeds and leaves
    the cursor at the end; the request for one byte more gets [NULL] and
    leaves the region as it is. *)
Theorem region_alloc_exact_fit r align :
  region_wf r -> is_pow2 align ->
  round_up (free r) align <= begin r + cap r ->
  region_alloc r (begin r + cap r - round_up (free r) align) align =
    (round_up (free r) align,
     {| next := next r; cap := cap r; free := begin r + cap r; begin := begin r |}) /\
  region_alloc r (begin r + cap r - round_up (free r) align + 1) align = (NULL, r).
Proof.
  intros Hwf Hal Hin. pose proof Hwf as (Hb & Hbf & Hfc & Htop).
  destruct (align_up_user (free r) align ltac:(unfold user_address; lia) Hal)
    as (Hau & [Hlo Hhi] & _).
  set (s := round_up (free r) align) in *.
  rewrite USER_TOP_eq in *.
  split.
  - rewrite (region_alloc_spec r (begin r + cap r - s) align)
      by (try assumption; rewrite USER_TOP_eq; lia).
    fold s.
    assert (H1 : (begin r + cap r <? s + (begin r + cap r - s)) = false)
      by (apply Z.ltb_ge; lia).
    rewrite H1. f_equal. f_equal. lia.
  - unfold region_alloc. rewrite Hau.
    rewrite (wrap_small (begin r + cap r)) by (rewrite WORD_eq; lia).
    rewrite (wrap_small (s + _)) by (rewrite WORD_eq; lia).
    assert (H2 : (s + (begin r + cap r - s + 1) >? begin r + cap r) = true)
      by (apply Z.gtb_lt; lia).
    rewrite H2. reflexivity.
Qed.

Lemma region_alloc_exact_fit_witness :
  region_alloc test_region
    (begin test_region + cap test_region - round_up (free test_region) 4) 4 =
    (round_up (free test_region) 4,
     {| next := next test_region; cap := cap test_region;
        free := begin test_region + cap test_region;
        begin := begin test_region |}) /\
  region_alloc test_region
    (begin test_region + cap test_region - round_up (free test_region) 4 + 1) 4 =
    (NULL, test_region).
Proof.
  apply (region_alloc_exact_fit test_region 4).
  - by_evaluation.
  - exact is_pow2_4.
  - vm_compute. discriminate.
Defined.
